(** * PG-Drift: the pairwise metadata diff engine

    A shallow embedding of [src/pg_metadata_diff_results.py] (class
    [PgMetadataDiffResults]) and of [src/utils/mask_string.py], together with
    the properties that the specification states about them.

    Conventions of the embedding.
    - A Python [str] is a Rocq [string]; one [ascii] stands for one character,
      and [sorted] compares strings character by character, as Python does.
    - A Python [dict] is an insertion-ordered association list with unique keys
      ([pydict]); [d[k] = v] is [dict_set], [d[k]] is [dict_getitem].
    - A Python [set] of strings is a [gset string]; its iteration order is
      not specified, and the code only ever iterates over [sorted(...)].
    - An exception is a value of [exn]; a function that may raise returns a
      [result].  The cache of [_load_metadata], the file reads and the report
      file are threaded through an explicit [world].
    - Logging and the console summary ([_print_diff_summary]) only print; they
      are left out of the model. *)

From stdpp Require Import gmap strings list sorting.
From stdpp Require Import pretty.

(** ** Exceptions and fallible computations *)

Inductive exn : Type :=
  | KeyError (key : string)
  | IndexError
  | ReadError (filepath : string).

Inductive result (A : Type) : Type :=
  | Ok (a : A)
  | Raise (e : exn).

Arguments Ok {A} a.
Arguments Raise {A} e.

Global Instance result_ret : MRet result := λ A a, Ok a.

Global Instance result_bind : MBind result := λ A B f m,
  match m with
  | Ok a => f a
  | Raise e => Raise e
  end.

Definition is_Ok {A} (r : result A) : Prop := ∃ a, r = Ok a.

(** A [for x in xs: body] loop whose body updates the loop state [s] and may
    raise: the first exception leaves the loop. *)
Fixpoint for_each {A S : Type} (xs : list A) (body : A → S → result S) (s : S)
  : result S :=
  match xs with
  | [] => Ok s
  | x :: xs' => s' ← body x s; for_each xs' body s'
  end.

(** ** Python dictionaries *)

Abbreviation pydict V := (list (string * V)).

Definition dict_keys {V} (d : pydict V) : list string := d.*1.

Fixpoint dict_get {V} (d : pydict V) (k : string) : option V :=
  match d with
  | [] => None
  | (k', v) :: d' => if decide (k = k') then Some v else dict_get d' k
  end.

(** [d[k] = v]: an existing key keeps its position and takes the new value, a
    new key goes to the end. *)
Fixpoint dict_set {V} (k : string) (v : V) (d : pydict V) : pydict V :=
  match d with
  | [] => [(k, v)]
  | (k', v') :: d' =>
      if decide (k = k') then (k, v) :: d' else (k', v') :: dict_set k v d'
  end.

(** [d[k]] *)
Definition dict_getitem {V} (d : pydict V) (k : string) : result V :=
  match dict_get d k with
  | Some v => Ok v
  | None => Raise (KeyError k)
  end.

(** [xs[i]] for [0 <= i] *)
Definition list_getitem {A} (xs : list A) (i : nat) : result A :=
  match xs !! i with
  | Some x => Ok x
  | None => Raise IndexError
  end.

(** [sorted(s)] for a set of strings *)
Definition sorted (s : gset string) : list string :=
  merge_sort String.le (elements s).

(** ** [utils/mask_string.py] *)

(** [value[:n]]: for [n >= 0] the first [n] characters, for [n < 0] all but
    the last [-n] characters. *)
Fixpoint take_chars (n : nat) (s : string) : string :=
  match n, s with
  | S n', String c s' => String c (take_chars n' s')
  | _, _ => ""
  end.

Definition slice_to (value : string) (n : Z) : string :=
  if decide (0 ≤ n)%Z then take_chars (Z.to_nat n) value
  else take_chars (String.length value - Z.to_nat (- n)) value.

Definition mask_string (value : string) (visible_chars : Z) : string :=
  if bool_decide (value = "") || bool_decide (Z.of_nat (String.length value) ≤ visible_chars)%Z
  then "***"
  else slice_to value visible_chars +:+ "***".

(** The default of the second argument. *)
Definition mask_string_default (value : string) : string := mask_string value 3.

(** ** Data model of [pg_metadata_diff_results.py] *)

(** The scalar values a column descriptor holds after [json.load]. *)
Inductive value : Type :=
  | VStr (s : string)
  | VBool (b : bool).

Global Instance value_eq_dec : EqDecision value.
Proof. solve_decision. Defined.

(** [f"{v}"] *)
Definition str (v : value) : string :=
  match v with
  | VStr s => s
  | VBool true => "True"
  | VBool false => "False"
  end.

(** A column descriptor is a JSON object; of its keys the code reads
    ['column_name'], ['data_type'] and ['is_nullable'], each of which may be
    absent ([None]). *)
Record column : Type := Column {
  column_name : option string;
  data_type : option value;
  is_nullable : option value
}.

Global Instance column_eq_dec : EqDecision column.
Proof. solve_decision. Defined.

(** [col[key]] on a field that may be absent *)
Definition getitem {A} (key : string) (field : option A) : result A :=
  match field with
  | Some a => Ok a
  | None => Raise (KeyError key)
  end.

(** The metadata of one database: table name to list of column descriptors. *)
Abbreviation snapshot := (pydict (list column)).

Inductive kind : Type :=
  | MISSING_TABLE
  | EXTRA_TABLE
  | MISSING_COLUMN
  | EXTRA_COLUMN
  | COLUMN_MISMATCH.

Global Instance kind_eq_dec : EqDecision kind.
Proof. solve_decision. Defined.

Definition kind_str (k : kind) : string :=
  match k with
  | MISSING_TABLE => "MISSING_TABLE"
  | EXTRA_TABLE => "EXTRA_TABLE"
  | MISSING_COLUMN => "MISSING_COLUMN"
  | EXTRA_COLUMN => "EXTRA_COLUMN"
  | COLUMN_MISMATCH => "COLUMN_MISMATCH"
  end.

(** One entry of the [differences] list; [diff_column] is the key
    ['column_name'] of the entry. *)
Record Difference : Type := mkDifference {
  diff_type : kind;
  table_name : string;
  diff_column : string;
  detail : string;
  db1 : string;
  db2 : string
}.

Global Instance Difference_eq_dec : EqDecision Difference.
Proof. solve_decision. Defined.

Record PgConfig : Type := mkPgConfig {
  host : string;
  port : Z;
  user : string;
  password : string;
  database : string
}.

(** ** [_get_all_tables] *)

Definition _get_all_tables (metadata : snapshot) : gset string :=
  list_to_set (dict_keys metadata).

(** ** [_get_column_signature] *)

Definition _get_column_signature (column : column) : result string :=
  name ← getitem "column_name" (column_name column);
  ty ← getitem "data_type" (data_type column);
  nu ← getitem "is_nullable" (is_nullable column);
  Ok (name +:+ "|" +:+ str ty +:+ "|" +:+ str nu).

(** ** [_compare_columns] *)

(** [{col['column_name']: col for col in columns}] *)
Definition cols_dict (columns : list column) : result (pydict column) :=
  for_each columns
    (λ col d, name ← getitem "column_name" (column_name col);
              Ok (dict_set name col d))
    [].

Definition _compare_columns (table : string) (columns1 columns2 : list column)
    (label1 label2 : string) : result (list Difference) :=
  cols1_dict ← cols_dict columns1;
  cols2_dict ← cols_dict columns2;
  let cols1_names : gset string := list_to_set (dict_keys cols1_dict) in
  let cols2_names : gset string := list_to_set (dict_keys cols2_dict) in
  (* Columns only in database 1 *)
  let only_in_db1 := cols1_names ∖ cols2_names in
  differences ← for_each (sorted only_in_db1)
    (λ col_name differences,
       col ← dict_getitem cols1_dict col_name;
       ty ← getitem "data_type" (data_type col);
       nu ← getitem "is_nullable" (is_nullable col);
       Ok (differences ++
             [mkDifference MISSING_COLUMN table col_name
                ("Column exists in " +:+ label1 +:+ " but not in " +:+ label2
                   +:+ " (type: " +:+ str ty +:+ ", nullable: " +:+ str nu +:+ ")")
                label1 label2]))
    [];
  (* Columns only in database 2 *)
  let only_in_db2 := cols2_names ∖ cols1_names in
  differences ← for_each (sorted only_in_db2)
    (λ col_name differences,
       col ← dict_getitem cols2_dict col_name;
       ty ← getitem "data_type" (data_type col);
       nu ← getitem "is_nullable" (is_nullable col);
       Ok (differences ++
             [mkDifference EXTRA_COLUMN table col_name
                ("Column exists in " +:+ label2 +:+ " but not in " +:+ label1
                   +:+ " (type: " +:+ str ty +:+ ", nullable: " +:+ str nu +:+ ")")
                label1 label2]))
    differences;
  (* For type/nullable differences *)
  let common_columns := cols1_names ∩ cols2_names in
  for_each (sorted common_columns)
    (λ col_name differences,
       col1 ← dict_getitem cols1_dict col_name;
       col2 ← dict_getitem cols2_dict col_name;
       ty1 ← getitem "data_type" (data_type col1);
       ty2 ← getitem "data_type" (data_type col2);
       let type_diff := bool_decide (ty1 ≠ ty2) in
       nu1 ← getitem "is_nullable" (is_nullable col1);
       nu2 ← getitem "is_nullable" (is_nullable col2);
       let nullable_diff := bool_decide (nu1 ≠ nu2) in
       if type_diff || nullable_diff then
         let detail_parts :=
           (if type_diff
            then ["data_type: " +:+ label1 +:+ "=" +:+ str ty1 +:+ " vs "
                    +:+ label2 +:+ "=" +:+ str ty2]
            else [])
           ++
           (if nullable_diff
            then ["nullable: " +:+ label1 +:+ "=" +:+ str nu1 +:+ " vs "
                    +:+ label2 +:+ "=" +:+ str nu2]
            else []) in
         Ok (differences ++
               [mkDifference COLUMN_MISMATCH table col_name
                  (String.concat "; " detail_parts) label1 label2])
       else Ok differences)
    differences.

(** ** [_compare_tables] *)

Definition _compare_tables (label1 : string) (metadata1 : snapshot)
    (label2 : string) (metadata2 : snapshot) : result (list Difference) :=
  let tables1 := _get_all_tables metadata1 in
  let tables2 := _get_all_tables metadata2 in
  (* Tables only in database 1 *)
  let only_in_db1 := tables1 ∖ tables2 in
  differences ← for_each (sorted only_in_db1)
    (λ table differences,
       Ok (differences ++
             [mkDifference MISSING_TABLE table ""
                ("Table exists in " +:+ label1 +:+ " but not in " +:+ label2)
                label1 label2]))
    [];
  (* Tables only in database 2 *)
  let only_in_db2 := tables2 ∖ tables1 in
  differences ← for_each (sorted only_in_db2)
    (λ table differences,
       Ok (differences ++
             [mkDifference EXTRA_TABLE table ""
                ("Table exists in " +:+ label2 +:+ " but not in " +:+ label1)
                label1 label2]))
    differences;
  (* For common tables... *)
  let common_tables := tables1 ∩ tables2 in
  for_each (sorted common_tables)
    (λ table differences,
       columns1 ← dict_getitem metadata1 table;
       columns2 ← dict_getitem metadata2 table;
       col_diffs ← _compare_columns table columns1 columns2 label1 label2;
       Ok (differences ++ col_diffs))
    differences.

(** ** [generate_diff_report]: the comparison phase *)

(** [metadata_map[label] = snapshot] for one entry [(label, snapshot)]. *)
Definition set_entry {V} (metadata_map : pydict V) (e : string * V) : pydict V :=
  dict_set e.1 e.2 metadata_map.

(** Lines 142-144 with the snapshots already loaded: [metadata_map[label] =
    snapshot] for every entry, in input order. *)
Definition metadata_map_of (entries : list (string * list (string * list column)))
  : pydict (list (string * list column)) :=
  fold_left set_entry entries [].

(** Lines 148-158: [labels = list(metadata_map.keys())] and the two nested
    [range] loops over the indices of [labels]. *)
Definition compare_all (metadata_map : pydict (list (string * list column)))
  : result (list Difference) :=
  let labels := dict_keys metadata_map in
  for_each (seq 0 (length labels))
    (λ i all_differences,
       for_each (seq (i + 1) (length labels - (i + 1)))
         (λ j all_differences,
            label1 ← list_getitem labels i;
            label2 ← list_getitem labels j;
            metadata1 ← dict_getitem metadata_map label1;
            metadata2 ← dict_getitem metadata_map label2;
            diffs ← _compare_tables label1 metadata1 label2 metadata2;
            Ok (all_differences ++ diffs))
         all_differences)
    [].

(** ** The loader, its cache and the report file *)

(** What a run can observe and change: the cache of the object, the sources
    opened so far (in order), the directories created and the files written
    (path and rows). *)
Record world : Type := World {
  metadata_cache : pydict (list (string * list column));
  reads : list string;
  dirs : list string;
  files : list (string * list (list string))
}.

(** The state after [__init__]. *)
Definition init_world : world := World [] [] [] [].

Definition headers : list string :=
  ["Diff Type"; "Table Name"; "Column Name"; "Database 1"; "Database 2"; "Detail"].

Definition csv_row (diff : Difference) : list string :=
  [kind_str (diff_type diff); table_name diff; diff_column diff;
   db1 diff; db2 diff; detail diff].

Section Run.

(** [open(filepath)] followed by [json.load]: the snapshot a source holds
    at the moment of the [n]-th read of the run, or [None] when the source
    cannot be read or parsed. *)
Variable json_load : nat → string → option (list (string * list column)).

Definition _load_metadata (filepath : string) (w : world)
  : result (list (string * list column)) * world :=
  match dict_get (metadata_cache w) filepath with
  | Some metadata => (Ok metadata, w)
  | None =>
      let w' := World (metadata_cache w) (reads w ++ [filepath]) (dirs w) (files w) in
      match json_load (length (reads w)) filepath with
      | Some metadata =>
          (Ok metadata,
           World (dict_set filepath metadata (metadata_cache w'))
                 (reads w') (dirs w') (files w'))
      | None => (Raise (ReadError filepath), w')
      end
  end.

(** Lines 142-144: the loop that fills [metadata_map]. *)
Fixpoint load_all (metadata_files : list (string * string * PgConfig))
    (metadata_map : pydict (list (string * list column))) (w : world)
  : result (pydict (list (string * list column))) * world :=
  match metadata_files with
  | [] => (Ok metadata_map, w)
  | (label, filepath, _) :: rest =>
      match _load_metadata filepath w with
      | (Ok metadata, w') => load_all rest (dict_set label metadata metadata_map) w'
      | (Raise e, w') => (Raise e, w')
      end
  end.

Definition generate_diff_report (metadata_files : list (string * string * PgConfig))
    (output_folder timestamp : string) (w : world) : result unit * world :=
  let w := World (metadata_cache w) (reads w) (dirs w ++ [output_folder]) (files w) in
  match load_all metadata_files [] w with
  | (Raise e, w) => (Raise e, w)
  | (Ok metadata_map, w) =>
      match compare_all metadata_map with
      | Raise e => (Raise e, w)
      | Ok [] => (Ok (), w)
      | Ok all_differences =>
          let csv_path := output_folder +:+ "/" +:+ timestamp +:+ "-schema_differences.csv" in
          (Ok (),
           World (metadata_cache w) (reads w) (dirs w)
                 (files w ++ [(csv_path, headers :: (csv_row <$> all_differences))]))
      end
  end.

(** The worlds reached from [w] by loading the sources [paths] one after
    the other, whatever the loads return. *)
Fixpoint load_each (paths : list string) (w : world) : world :=
  match paths with
  | [] => w
  | filepath :: rest => load_each rest (_load_metadata filepath w).2
  end.

End Run.

(** Every source read so far is in the cache, and was read once. *)
Definition cache_inv (w : world) : Prop :=
  NoDup (reads w) ∧ ∀ filepath, filepath ∈ reads w →
                                filepath ∈ dict_keys (metadata_cache w).

(** ** Auxiliary definitions for the statements *)

(** The loops of the source all have the shape
    [for x in xs: differences.extend(f(x))]; [collect f xs] is the list they
    add, or the first exception. *)
Definition collect {A B} (f : A → result (list B)) (xs : list A)
  : result (list B) :=
  rs ← mapM f xs; Ok (concat rs).

Arguments collect : simpl never.

(** Strictly ascending lexical order on strings. *)
Definition str_lt : relation string := strict String.le.

(** The bodies of the three loops of [_compare_columns], as functions of the
    column name: what one iteration adds to [differences]. *)
Definition missing_column_item (table label1 label2 : string)
    (cols1_dict : pydict column) (col_name : string) : result (list Difference) :=
  col ← dict_getitem cols1_dict col_name;
  ty ← getitem "data_type" (data_type col);
  nu ← getitem "is_nullable" (is_nullable col);
  Ok [mkDifference MISSING_COLUMN table col_name
        ("Column exists in " +:+ label1 +:+ " but not in " +:+ label2
           +:+ " (type: " +:+ str ty +:+ ", nullable: " +:+ str nu +:+ ")")
        label1 label2].

Definition extra_column_item (table label1 label2 : string)
    (cols2_dict : pydict column) (col_name : string) : result (list Difference) :=
  col ← dict_getitem cols2_dict col_name;
  ty ← getitem "data_type" (data_type col);
  nu ← getitem "is_nullable" (is_nullable col);
  Ok [mkDifference EXTRA_COLUMN table col_name
        ("Column exists in " +:+ label2 +:+ " but not in " +:+ label1
           +:+ " (type: " +:+ str ty +:+ ", nullable: " +:+ str nu +:+ ")")
        label1 label2].

(** The detail of a [COLUMN_MISMATCH], clause by clause. *)
Definition data_type_clause (label1 label2 : string) (ty1 ty2 : value) : string :=
  "data_type: " +:+ label1 +:+ "=" +:+ str ty1 +:+ " vs " +:+ label2 +:+ "=" +:+ str ty2.

Definition nullable_clause (label1 label2 : string) (nu1 nu2 : value) : string :=
  "nullable: " +:+ label1 +:+ "=" +:+ str nu1 +:+ " vs " +:+ label2 +:+ "=" +:+ str nu2.

Definition mismatch_detail (label1 label2 : string) (ty1 ty2 nu1 nu2 : value) : string :=
  String.concat "; "
    ((if bool_decide (ty1 ≠ ty2) then [data_type_clause label1 label2 ty1 ty2] else [])
     ++ (if bool_decide (nu1 ≠ nu2) then [nullable_clause label1 label2 nu1 nu2] else [])).

Definition mismatch_item (table label1 label2 : string)
    (cols1_dict cols2_dict : pydict column) (col_name : string)
  : result (list Difference) :=
  col1 ← dict_getitem cols1_dict col_name;
  col2 ← dict_getitem cols2_dict col_name;
  ty1 ← getitem "data_type" (data_type col1);
  ty2 ← getitem "data_type" (data_type col2);
  nu1 ← getitem "is_nullable" (is_nullable col1);
  nu2 ← getitem "is_nullable" (is_nullable col2);
  if bool_decide (ty1 ≠ ty2) || bool_decide (nu1 ≠ nu2) then
    Ok [mkDifference COLUMN_MISMATCH table col_name
          (mismatch_detail label1 label2 ty1 ty2 nu1 nu2) label1 label2]
  else Ok [].

(** [set(cols_dict.keys())] *)
Definition names (d : pydict column) : gset string := list_to_set (dict_keys d).

(** What one iteration of each loop of [_compare_tables] adds. *)
Definition missing_table (label1 label2 table : string) : Difference :=
  mkDifference MISSING_TABLE table ""
    ("Table exists in " +:+ label1 +:+ " but not in " +:+ label2) label1 label2.

Definition extra_table (label1 label2 table : string) : Difference :=
  mkDifference EXTRA_TABLE table ""
    ("Table exists in " +:+ label2 +:+ " but not in " +:+ label1) label1 label2.

Definition common_table_item (label1 : string) (metadata1 : snapshot)
    (label2 : string) (metadata2 : snapshot) (table : string)
  : result (list Difference) :=
  columns1 ← dict_getitem metadata1 table;
  columns2 ← dict_getitem metadata2 table;
  _compare_columns table columns1 columns2 label1 label2.

(** Well-formed snapshots, the data model of the specification: every column
    descriptor has its three fields, and column names are unique within a
    table. *)
Definition has_fields (col : column) : Prop :=
  is_Some (column_name col) ∧ is_Some (data_type col) ∧ is_Some (is_nullable col).

Global Instance has_fields_dec col : Decision (has_fields col).
Proof. unfold has_fields. apply _. Defined.

Definition wf_columns (columns : list column) : Prop :=
  Forall has_fields columns ∧ NoDup (column_name <$> columns).

Definition wf_snapshot (metadata : snapshot) : Prop :=
  Forall (λ tc, wf_columns tc.2) metadata.

Global Instance wf_columns_dec columns : Decision (wf_columns columns).
Proof. unfold wf_columns. apply _. Defined.

Global Instance wf_snapshot_dec metadata : Decision (wf_snapshot metadata).
Proof. unfold wf_snapshot. apply _. Defined.

(** The descriptor that [cols_dict] keeps for a name: the last one in the
    list that carries it. *)
Fixpoint find_col (name : string) (columns : list column) : option column :=
  match columns with
  | [] => None
  | col :: rest =>
      match find_col name rest with
      | Some c => Some c
      | None => if decide (column_name col = Some name) then Some col else None
      end
  end.

(** The three kinds of column entries. *)
Definition missing_column (table label1 label2 col_name : string) (ty nu : value)
  : Difference :=
  mkDifference MISSING_COLUMN table col_name
    ("Column exists in " +:+ label1 +:+ " but not in " +:+ label2
       +:+ " (type: " +:+ str ty +:+ ", nullable: " +:+ str nu +:+ ")")
    label1 label2.

Definition extra_column (table label1 label2 col_name : string) (ty nu : value)
  : Difference :=
  mkDifference EXTRA_COLUMN table col_name
    ("Column exists in " +:+ label2 +:+ " but not in " +:+ label1
       +:+ " (type: " +:+ str ty +:+ ", nullable: " +:+ str nu +:+ ")")
    label1 label2.

Definition column_mismatch (table label1 label2 col_name : string)
    (ty1 ty2 nu1 nu2 : value) : Difference :=
  mkDifference COLUMN_MISMATCH table col_name
    (mismatch_detail label1 label2 ty1 ty2 nu1 nu2) label1 label2.

Definition column_kind (k : kind) : Prop :=
  k = MISSING_COLUMN ∨ k = EXTRA_COLUMN ∨ k = COLUMN_MISMATCH.

(** Example snapshots: a descriptor with string fields, and two versions of
    a schema that differ in tables, columns, types and nullability. *)
Definition col (name ty nu : string) : column :=
  Column (Some name) (Some (VStr ty)) (Some (VStr nu)).

Definition shop_v1 : snapshot :=
  [("users", [col "id" "int" "NO"; col "email" "text" "YES"]);
   ("orders", [col "id" "int" "NO"; col "total" "numeric" "NO"])].

Definition shop_v2 : snapshot :=
  [("users", [col "id" "bigint" "YES"; col "phone" "text" "YES"]);
   ("audit", [col "at" "timestamp" "NO"])].

(** All pairs of a list, the first component before the second, ordered by
    first component and then by second. *)
Fixpoint pairs {A} (l : list A) : list (A * A) :=
  match l with
  | [] => []
  | x :: l' => (pair x <$> l') ++ pairs l'
  end.

(** The same by positions: [for i in range(n): for j in range(i + 1, n)]. *)
Definition index_pairs (n : nat) : list (nat * nat) :=
  i ← seq 0 n; j ← seq (i + 1) (n - (i + 1)); [(i, j)].

(** The comparison of one pair of entries, the first as db1. *)
Definition compare_pair (p : (string * list (string * list column))
                            * (string * list (string * list column)))
  : result (list Difference) :=
  _compare_tables p.1.1 p.1.2 p.2.1 p.2.2.

(** Every column descriptor of the snapshot has its three fields. *)
Definition fields_present (metadata : snapshot) : Prop :=
  Forall (λ tc, Forall has_fields tc.2) metadata.

Global Instance fields_present_dec metadata : Decision (fields_present metadata).
Proof. unfold fields_present. apply _. Defined.

(** The part of the report an entry belongs to: the tables only in db1, the
    tables only in db2, the tables of both. *)
Definition section_rank (x : Difference) : nat :=
  match diff_type x with
  | MISSING_TABLE => 0
  | EXTRA_TABLE => 1
  | MISSING_COLUMN | EXTRA_COLUMN | COLUMN_MISMATCH => 2
  end.

(** Within a table of both: missing columns, extra columns, mismatches. *)
Definition group_rank (x : Difference) : nat :=
  match diff_type x with
  | MISSING_COLUMN => 0
  | EXTRA_COLUMN => 1
  | COLUMN_MISMATCH => 2
  | MISSING_TABLE | EXTRA_TABLE => 0
  end.

(** [x] comes before [y]: by part, then by table name, then by group, then
    by column name, names in strictly ascending lexical order. *)
Definition diff_lt (x y : Difference) : Prop :=
  section_rank x < section_rank y
  ∨ (section_rank x = section_rank y
     ∧ (str_lt (table_name x) (table_name y)
        ∨ (table_name x = table_name y
           ∧ (group_rank x < group_rank y
              ∨ (group_rank x = group_rank y
                 ∧ str_lt (diff_column x) (diff_column y)))))).

(** The descriptor of column [name] of table [table] that the comparison
    looks at. *)
Definition lookup_column (metadata : snapshot) (table name : string)
  : option column :=
  columns ← dict_get metadata table; find_col name columns.

(** Two snapshots, in different key order, that differ in the type of
    [posts.id] only. *)
Definition blog_v1 : snapshot :=
  [("posts", [col "id" "int" "NO"; col "title" "text" "YES"]);
   ("tags", [col "name" "text" "NO"])].

Definition blog_v2 : snapshot :=
  [("tags", [col "name" "text" "NO"]);
   ("posts", [col "title" "text" "YES"; col "id" "bigint" "NO"])].

(** A source whose content changes after the first read. *)
Definition changing_source (n : nat) (filepath : string)
  : option (list (string * list column)) :=
  if decide (filepath = "a.json") then Some (if decide (n = 0) then shop_v1 else shop_v2)
  else if decide (filepath = "b.json") then Some shop_v2
  else None.

(** The only exception the comparison raises is [KeyError]. *)
Definition raises_KeyError {A} (r : result A) : Prop :=
  match r with
  | Ok _ => True
  | Raise e => ∃ key, e = KeyError key
  end.

(** Two sources; the first has a table [orders] whose only column
    descriptor lacks its type and nullability. *)
Definition untyped_orders : snapshot :=
  [("orders", [Column (Some "id") None None]); ("users", [col "id" "int" "NO"])].

Definition two_sources (orders_too : bool) (n : nat) (filepath : string)
  : option (list (string * list column)) :=
  if decide (filepath = "a.json") then Some untyped_orders
  else if decide (filepath = "b.json")
       then Some (if orders_too
                  then [("orders", [col "id" "int" "NO"]); ("users", [col "id" "int" "NO"])]
                  else [("users", [col "id" "int" "NO"])])
  else None.

Definition cfg : PgConfig := mkPgConfig "localhost" 5432 "postgres" "password" "postgres".

(** ** Definitions for the further properties *)

(** What an entry of a comparison says about the two snapshots. *)
Definition justified (label1 : string) (metadata1 : snapshot)
    (label2 : string) (metadata2 : snapshot) (x : Difference) : Prop :=
  db1 x = label1 ∧ db2 x = label2
  ∧ match diff_type x with
    | MISSING_TABLE =>
        diff_column x = ""
        ∧ is_Some (dict_get metadata1 (table_name x))
        ∧ dict_get metadata2 (table_name x) = None
    | EXTRA_TABLE =>
        diff_column x = ""
        ∧ dict_get metadata1 (table_name x) = None
        ∧ is_Some (dict_get metadata2 (table_name x))
    | MISSING_COLUMN =>
        is_Some (lookup_column metadata1 (table_name x) (diff_column x))
        ∧ is_Some (dict_get metadata2 (table_name x))
        ∧ lookup_column metadata2 (table_name x) (diff_column x) = None
    | EXTRA_COLUMN =>
        is_Some (dict_get metadata1 (table_name x))
        ∧ lookup_column metadata1 (table_name x) (diff_column x) = None
        ∧ is_Some (lookup_column metadata2 (table_name x) (diff_column x))
    | COLUMN_MISMATCH =>
        ∃ col1 col2,
          lookup_column metadata1 (table_name x) (diff_column x) = Some col1
          ∧ lookup_column metadata2 (table_name x) (diff_column x) = Some col2
          ∧ (data_type col1 ≠ data_type col2 ∨ is_nullable col1 ≠ is_nullable col2)
    end.

(** ** [config/pg_config.py] *)

(** [int(...)] raises [ValueError] on a string that is not an integer
    literal; the loader lets it through. *)
Inductive env_result (A : Type) : Type :=
  | EnvOk (a : A)
  | ValueError (literal : string).

Arguments EnvOk {A} a.
Arguments ValueError {A} literal.

Global Instance env_result_ret : MRet env_result := λ A a, EnvOk a.

Global Instance env_result_bind : MBind env_result := λ A B f m,
  match m with
  | EnvOk a => f a
  | ValueError s => ValueError s
  end.

(** [os.getenv(key, default)] on the environment [environ] *)
Definition getenv (environ : gmap string string) (key fallback : string) : string :=
  default fallback (environ !! key).

(** The names of the variables of database [i]: [f"PG_DRIFT_DB_HOST_{i}"]
    and the like. *)
Definition host_key (i : nat) : string := "PG_DRIFT_DB_HOST_" +:+ pretty i.
Definition port_key (i : nat) : string := "PG_DRIFT_DB_PORT_" +:+ pretty i.
Definition user_key (i : nat) : string := "PG_DRIFT_DB_USER_" +:+ pretty i.
Definition password_key (i : nat) : string := "PG_DRIFT_DB_PASSWORD_" +:+ pretty i.
Definition name_key (i : nat) : string := "PG_DRIFT_DB_NAME_" +:+ pretty i.

Section Config.

(** Python's [int] on strings: the integer that the string denotes, [None]
    where [int] raises [ValueError]. *)
Variable int : string → option Z.

Definition int_of (s : string) : env_result Z :=
  match int s with
  | Some z => EnvOk z
  | None => ValueError s
  end.

(** The body of the loop of [load_from_env], for database [i]. *)
Definition load_config (environ : gmap string string) (i : nat) : env_result PgConfig :=
  let host := getenv environ (host_key i) "localhost" in
  port ← int_of (getenv environ (port_key i) "5432");
  let user := getenv environ (user_key i) "postgres" in
  let password := getenv environ (password_key i) "password" in
  let database := getenv environ (name_key i) "postgres" in
  EnvOk (mkPgConfig host port user password database).

(** [PgConfig.load_from_env]; [range(1, db_count + 1)] is empty for
    [db_count <= 0]. *)
Definition load_from_env (environ : gmap string string) : env_result (list PgConfig) :=
  db_count ← int_of (getenv environ "DB_COUNT" "1");
  mapM (load_config environ) (seq 1 (Z.to_nat db_count)).

End Config.

(** What [load_from_env] builds from an empty environment. *)
Definition default_config : PgConfig :=
  mkPgConfig "localhost" 5432 "postgres" "password" "postgres".

(** A reader of unsigned decimal literals, to run [load_from_env] on
    examples: [int] of Python agrees with it on strings of ASCII digits. *)
Definition digit_of (c : Ascii.ascii) : option Z :=
  let n := Z.of_nat (Ascii.nat_of_ascii c) in
  if decide (48 ≤ n ≤ 57)%Z then Some (n - 48)%Z else None.

Fixpoint decimal_go (s : string) (acc : Z) : option Z :=
  match s with
  | "" => Some acc
  | String c s' => d ← digit_of c; decimal_go s' (10 * acc + d)%Z
  end.

Definition decimal (s : string) : option Z :=
  match s with
  | "" => None
  | _ => decimal_go s 0
  end.

(** ** [_print_diff_summary]

    The function only prints; its model returns the printed strings, one per
    call of [print].  The bullet of the sample lines is the UTF-8 text of
    U+2022. *)

(** ["\n"] *)
Definition newline : string := String (Ascii.ascii_of_nat 10) "".

(** [s * n] *)
Fixpoint repeat_string (s : string) (n : nat) : string :=
  match n with
  | 0 => ""
  | S n' => s +:+ repeat_string s n'
  end.

(** One iteration of the grouping loop: the key is created with an empty
    list when it is new, then the entry is appended to the list of its key
    (which is there, so that [by_type[diff_type]] cannot raise). *)
Definition add_by_type (by_type : pydict (list Difference)) (diff : Difference)
  : pydict (list Difference) :=
  let diff_type := kind_str (diff_type diff) in
  let by_type :=
    if decide (diff_type ∈ dict_keys by_type) then by_type
    else dict_set diff_type [] by_type in
  dict_set diff_type (default [] (dict_get by_type diff_type) ++ [diff]) by_type.

(** The order of [sorted(by_type.items())]: the keys of a dictionary are
    distinct, so that the order of the keys decides. *)
Definition item_le (a b : string * list Difference) : Prop := String.le a.1 b.1.

Global Instance item_le_dec : RelDecision item_le.
Proof. intros a b. unfold item_le. apply _. Defined.

Definition sample_line (diff : Difference) : string :=
  if decide (diff_column diff = "")
  then "  • " +:+ table_name diff +:+ ": " +:+ detail diff
  else "  • " +:+ table_name diff +:+ "." +:+ diff_column diff +:+ ": " +:+ detail diff.

(** The body of the loop over the groups. *)
Definition print_group (item : string * list Difference) : list string :=
  [newline +:+ item.1 +:+ ": " +:+ pretty (length item.2) +:+ " occurrence(s)"]
  ++ (sample_line <$> take 5 item.2)
  ++ (if decide (5 < length item.2)
      then ["  ... and " +:+ pretty (length item.2 - 5) +:+ " more"]
      else []).

Definition _print_diff_summary (differences : list Difference) (csv_path : string)
  : list string :=
  [newline +:+ "Schema Differences Detected (" +:+ pretty (length differences)
     +:+ " total)";
   repeat_string "=" 80]
  ++ (let by_type := fold_left add_by_type differences [] in
      merge_sort item_le by_type ≫= print_group)
  ++ [newline +:+ "Full Differences report saved to: " +:+ csv_path;
      repeat_string "=" 80].

(** The kinds in the order of their names. *)
Definition kinds_by_name : list kind :=
  [COLUMN_MISMATCH; EXTRA_COLUMN; EXTRA_TABLE; MISSING_COLUMN; MISSING_TABLE].

(** The entries of one kind, in the order of the report. *)
Definition of_kind (k : kind) (differences : list Difference) : list Difference :=
  filter (λ x, diff_type x = k) differences.

(** ** Reading a report back *)




(** ** An entry seen from the other side *)

Definition mirror_kind (k : kind) : kind :=
  match k with
  | MISSING_TABLE => EXTRA_TABLE
  | EXTRA_TABLE => MISSING_TABLE
  | MISSING_COLUMN => EXTRA_COLUMN
  | EXTRA_COLUMN => MISSING_COLUMN
  | COLUMN_MISMATCH => COLUMN_MISMATCH
  end.

(** The same table, column and detail, the kind mirrored and the two labels
    exchanged. *)
Definition mirror_entry (x : Difference) : Difference :=
  mkDifference (mirror_kind (diff_type x)) (table_name x) (diff_column x)
    (detail x) (db2 x) (db1 x).

(** An entry without the detail of a [COLUMN_MISMATCH] (which names the two
    sides in the order of the comparison). *)
Definition without_mismatch_detail (x : Difference) : Difference :=
  match diff_type x with
  | COLUMN_MISMATCH =>
      mkDifference COLUMN_MISMATCH (table_name x) (diff_column x) "" (db1 x) (db2 x)
  | _ => x
  end.

(** * Properties *)

(** ** Loops that append to a list *)

Lemma collect_nil {A B} (f : A → result (list B)) : collect f [] = Ok [].
Proof. reflexivity. Qed.

Lemma collect_cons {A B} (f : A → result (list B)) x xs :
  collect f (x :: xs) = r ← f x; rs ← collect f xs; Ok (r ++ rs).
Proof.
  unfold collect; simpl. destruct (f x) as [r|e]; simpl; [|done].
  destruct (mapM f xs) as [rs|e]; simpl; done.
Qed.

Lemma collect_app {A B} (f : A → result (list B)) xs ys :
  collect f (xs ++ ys) = r ← collect f xs; rs ← collect f ys; Ok (r ++ rs).
Proof.
  induction xs as [|x xs IH].
  - rewrite (collect_nil f); simpl. by destruct (collect f ys).
  - rewrite <- app_comm_cons, !collect_cons. destruct (f x) as [r|e]; simpl; [|done].
    rewrite IH. destruct (collect f xs) as [r'|e]; simpl; [|done].
    destruct (collect f ys) as [r''|e]; simpl; [|done].
    by rewrite (assoc_L (++)).
Qed.

Lemma for_each_collect {A B} (body : A → list B → result (list B))
    (f : A → result (list B)) xs s :
  (∀ x s, x ∈ xs → body x s = r ← f x; Ok (s ++ r)) →
  for_each xs body s = r ← collect f xs; Ok (s ++ r).
Proof.
  revert s. induction xs as [|x xs IH]; intros s Hbody; simpl.
  - by rewrite (right_id_L [] (++)).
  - rewrite Hbody by left. rewrite collect_cons.
    destruct (f x) as [r|e]; simpl; [|done].
    rewrite IH by (intros; apply Hbody; by right).
    destruct (collect f xs) as [rs|e]; simpl; [|done].
    by rewrite (assoc_L (++)).
Qed.

Lemma collect_ext {A B} (f g : A → result (list B)) xs :
  (∀ x, x ∈ xs → f x = g x) → collect f xs = collect g xs.
Proof.
  induction xs as [|x xs IH]; intros Hfg; [done|].
  rewrite !collect_cons, Hfg by left.
  rewrite IH; [done|]. intros; apply Hfg; by right.
Qed.

(** When nothing raises, the loop adds the concatenation of the parts. *)
Lemma collect_Ok {A B} (f : A → result (list B)) (g : A → list B) xs :
  (∀ x, x ∈ xs → f x = Ok (g x)) → collect f xs = Ok (xs ≫= g).
Proof.
  induction xs as [|x xs IH]; intros Hf; [done|].
  rewrite collect_cons, Hf by left; simpl.
  rewrite IH; [done|]. intros; apply Hf; by right.
Qed.

(** An iteration that raises makes the whole loop raise. *)
Lemma collect_Raise {A B} (f : A → result (list B)) xs x :
  x ∈ xs → ¬ is_Ok (f x) → ¬ is_Ok (collect f xs).
Proof.
  induction xs as [|y xs IH]; intros Hx Hfx [r Hr]; [by apply elem_of_nil in Hx|].
  rewrite collect_cons in Hr.
  destruct (f y) as [ry|e] eqn:Hy; simpl in Hr; [|done].
  apply elem_of_cons in Hx as [->|Hx].
  - apply Hfx. by exists ry.
  - destruct (collect f xs) as [rs|e]; simpl in Hr; [|done].
    apply IH; [done..|]. by exists rs.
Qed.

(** Inversion of a loop that returned. *)
Lemma collect_inv {A B} (f : A → result (list B)) xs r :
  collect f xs = Ok r →
  ∃ rs, Forall2 (λ x rx, f x = Ok rx) xs rs ∧ r = concat rs.
Proof.
  revert r. induction xs as [|x xs IH]; intros r Hr.
  - exists []. split; [constructor|]. rewrite collect_nil in Hr. by injection Hr.
  - rewrite collect_cons in Hr.
    destruct (f x) as [rx|e] eqn:Hx; simpl in Hr; [|done].
    destruct (collect f xs) as [rs|e]; simpl in Hr; [|done].
    destruct (IH rs eq_refl) as (rss & Hall & ->).
    exists (rx :: rss). split; [by constructor|]. by injection Hr.
Qed.

(** ** [sorted] *)

Lemma elem_of_sorted (s : gset string) x : x ∈ sorted s ↔ x ∈ s.
Proof.
  unfold sorted. rewrite merge_sort_Permutation. apply elem_of_elements.
Qed.

Lemma NoDup_sorted (s : gset string) : NoDup (sorted s).
Proof.
  unfold sorted. rewrite merge_sort_Permutation. apply NoDup_elements.
Qed.

Lemma sorted_empty : sorted ∅ = [].
Proof. reflexivity. Qed.

Lemma StronglySorted_sorted (s : gset string) : StronglySorted str_lt (sorted s).
Proof.
  assert (StronglySorted String.le (sorted s)) as Hs
    by apply (StronglySorted_merge_sort _).
  pose proof (NoDup_sorted s) as Hnd.
  induction Hs as [|x l Hl IH Hx]; [constructor|].
  apply NoDup_cons in Hnd as [Hnx Hnd].
  constructor; [by apply IH|].
  rewrite Forall_forall in Hx. apply Forall_forall. intros y Hy.
  split; [by apply Hx|]. intros Hyx.
  assert (x = y) as -> by (apply (anti_symm String.le); [by apply Hx|done]).
  done.
Qed.

(** ** Dictionaries *)

Section dict.
Context {V : Type}.
Implicit Types (d : pydict V) (k : string) (v : V).

Lemma dict_get_set d k v k' :
  dict_get (dict_set k v d) k' = if decide (k' = k) then Some v else dict_get d k'.
Proof.
  induction d as [|[k0 v0] d IH]; simpl.
  - done.
  - destruct (decide (k = k0)) as [->|Hk]; simpl.
    + by destruct (decide (k' = k0)).
    + rewrite IH. destruct (decide (k' = k0)) as [->|]; [|done].
      by rewrite decide_False by done.
Qed.

Lemma dict_keys_set d k v :
  dict_keys (dict_set k v d)
  = if decide (k ∈ dict_keys d) then dict_keys d else dict_keys d ++ [k].
Proof.
  unfold dict_keys. induction d as [|[k0 v0] d IH]; simpl; [done|].
  destruct (decide (k = k0)) as [->|Hk]; simpl.
  - rewrite decide_True by left. done.
  - fold (@fmap list _ _ _ (@fst string V)) in IH |- *.
    rewrite IH. destruct (decide (k ∈ d.*1)) as [Hin|Hin].
    + rewrite decide_True by (by right). done.
    + rewrite decide_False; [done|]. rewrite elem_of_cons. naive_solver.
Qed.

Lemma elem_of_dict_keys_set d k v k' :
  k' ∈ dict_keys (dict_set k v d) ↔ k' = k ∨ k' ∈ dict_keys d.
Proof.
  rewrite dict_keys_set. case_decide; [naive_solver|].
  rewrite elem_of_app, list_elem_of_singleton. naive_solver.
Qed.

Lemma NoDup_dict_set d k v :
  NoDup (dict_keys d) → NoDup (dict_keys (dict_set k v d)).
Proof.
  intros Hnd. rewrite dict_keys_set. case_decide; [done|].
  apply NoDup_app. split_and!; [done| |apply NoDup_singleton].
  intros x Hx ->%list_elem_of_singleton. done.
Qed.

Lemma dict_set_fresh d k v :
  k ∉ dict_keys d → dict_set k v d = d ++ [(k, v)].
Proof.
  unfold dict_keys. induction d as [|[k0 v0] d IH]; simpl; [done|].
  rewrite not_elem_of_cons. intros [Hk Hin].
  rewrite decide_False by done. by rewrite IH.
Qed.

Lemma dict_get_is_Some d k : is_Some (dict_get d k) ↔ k ∈ dict_keys d.
Proof.
  unfold dict_keys. induction d as [|[k0 v0] d IH]; simpl.
  - rewrite elem_of_nil. split; [by intros [? ?]|done].
  - rewrite elem_of_cons. case_decide; [naive_solver|].
    rewrite IH. naive_solver.
Qed.

Lemma dict_get_elem_of d k v : dict_get d k = Some v → (k, v) ∈ d.
Proof.
  induction d as [|[k0 v0] d IH]; simpl; [done|].
  case_decide as Hk; [intros [= ->]; subst; left|by right; apply IH].
Qed.

Lemma dict_get_NoDup d k v :
  NoDup (dict_keys d) → (k, v) ∈ d → dict_get d k = Some v.
Proof.
  unfold dict_keys. induction d as [|[k0 v0] d IH]; simpl.
  - by intros _ ?%elem_of_nil.
  - intros [Hk0 Hnd]%NoDup_cons [[= -> ->]|Hin]%elem_of_cons.
    + by rewrite decide_True.
    + rewrite decide_False; [by apply IH|].
      intros ->. apply Hk0. apply list_elem_of_fmap. by exists (k0, v).
Qed.
End dict.

(** ** The three loops of [_compare_columns], item by item *)

Lemma _compare_columns_collect table columns1 columns2 label1 label2 :
  _compare_columns table columns1 columns2 label1 label2 =
  d1 ← cols_dict columns1;
  d2 ← cols_dict columns2;
  a ← collect (missing_column_item table label1 label2 d1) (sorted (names d1 ∖ names d2));
  b ← collect (extra_column_item table label1 label2 d2) (sorted (names d2 ∖ names d1));
  c ← collect (mismatch_item table label1 label2 d1 d2) (sorted (names d1 ∩ names d2));
  Ok (a ++ b ++ c).
Proof.
  unfold _compare_columns.
  destruct (cols_dict columns1) as [d1|e]; simpl; [|done].
  destruct (cols_dict columns2) as [d2|e]; simpl; [|done].
  fold (names d1) (names d2).
  rewrite (for_each_collect _ (missing_column_item table label1 label2 d1)).
  2:{ intros x s _. unfold missing_column_item.
      destruct (dict_getitem d1 x) as [col|]; simpl; [|done].
      destruct (getitem "data_type" (data_type col)); simpl; [|done].
      by destruct (getitem "is_nullable" (is_nullable col)). }
  destruct (collect (missing_column_item _ _ _ _) _) as [a|e]; simpl; [|done].
  rewrite (for_each_collect _ (extra_column_item table label1 label2 d2)).
  2:{ intros x s _. unfold extra_column_item.
      destruct (dict_getitem d2 x) as [col|]; simpl; [|done].
      destruct (getitem "data_type" (data_type col)); simpl; [|done].
      by destruct (getitem "is_nullable" (is_nullable col)). }
  destruct (collect (extra_column_item _ _ _ _) _) as [b|e]; simpl; [|done].
  rewrite (for_each_collect _ (mismatch_item table label1 label2 d1 d2)).
  2:{ intros x s _. unfold mismatch_item, mismatch_detail, data_type_clause, nullable_clause.
      destruct (dict_getitem d1 x) as [col1|]; simpl; [|done].
      destruct (dict_getitem d2 x) as [col2|]; simpl; [|done].
      destruct (getitem "data_type" (data_type col1)); simpl; [|done].
      destruct (getitem "data_type" (data_type col2)); simpl; [|done].
      destruct (getitem "is_nullable" (is_nullable col1)); simpl; [|done].
      destruct (getitem "is_nullable" (is_nullable col2)); simpl; [|done].
      destruct (_ || _); simpl; [done|]. by rewrite (right_id_L [] (++)). }
  destruct (collect (mismatch_item _ _ _ _ _) _) as [c|e]; simpl; [|done].
  by rewrite (assoc_L (++)).
Qed.

(** ** The three loops of [_compare_tables] *)

Lemma _compare_tables_collect label1 metadata1 label2 metadata2 :
  _compare_tables label1 metadata1 label2 metadata2 =
  c ← collect (common_table_item label1 metadata1 label2 metadata2)
        (sorted (_get_all_tables metadata1 ∩ _get_all_tables metadata2));
  Ok ((missing_table label1 label2
         <$> sorted (_get_all_tables metadata1 ∖ _get_all_tables metadata2))
      ++ (extra_table label1 label2
         <$> sorted (_get_all_tables metadata2 ∖ _get_all_tables metadata1))
      ++ c).
Proof.
  unfold _compare_tables.
  rewrite (for_each_collect _ (λ t, Ok [missing_table label1 label2 t])) by done.
  rewrite (collect_Ok _ (λ t, [missing_table label1 label2 t])) by done. simpl.
  rewrite (for_each_collect _ (λ t, Ok [extra_table label1 label2 t])) by done.
  rewrite (collect_Ok _ (λ t, [extra_table label1 label2 t])) by done. simpl.
  rewrite (for_each_collect _ (common_table_item label1 metadata1 label2 metadata2)).
  2:{ intros x s _. unfold common_table_item.
      destruct (dict_getitem metadata1 x); simpl; [|done].
      by destruct (dict_getitem metadata2 x). }
  destruct (collect _ _) as [c|e]; simpl; [|done].
  rewrite <- (assoc_L (++)). do 3 f_equal.
Qed.

(** ** The dictionary of a column list *)

Lemma find_col_Some name columns col :
  find_col name columns = Some col → col ∈ columns ∧ column_name col = Some name.
Proof.
  induction columns as [|c rest IH]; simpl; [done|].
  destruct (find_col name rest) as [c'|].
  - intros [= ->]. destruct IH as [??]; [done|]. split; [by right|done].
  - case_decide; [|done]. intros [= ->]. split; [left|done].
Qed.

Lemma find_col_None name columns :
  find_col name columns = None ↔ ∀ col, col ∈ columns → column_name col ≠ Some name.
Proof.
  induction columns as [|c rest IH]; simpl.
  - split; [|done]. by intros _ col ?%elem_of_nil.
  - destruct (find_col name rest) as [c'|] eqn:Hf.
    + split; [done|]. intros Hall.
      destruct (find_col_Some _ _ _ Hf) as [Hin Hn].
      destruct (Hall c'); [by right|done].
    + case_decide as Hc.
      * split; [done|]. intros Hall. destruct (Hall c); [left|done].
      * split; [|done]. intros _ col [->|Hin]%elem_of_cons; [done|].
        by apply IH.
Qed.

Lemma find_col_NoDup name columns col :
  NoDup (column_name <$> columns) → col ∈ columns → column_name col = Some name →
  find_col name columns = Some col.
Proof.
  induction columns as [|c rest IH]; simpl.
  - by intros _ ?%elem_of_nil.
  - intros [Hc Hnd]%NoDup_cons [->|Hin]%elem_of_cons Hname.
    + destruct (find_col name rest) as [c'|] eqn:Hf.
      * destruct (find_col_Some _ _ _ Hf) as [Hin Hn].
        destruct Hc. rewrite Hname, <- Hn. apply list_elem_of_fmap. by exists c'.
      * by rewrite decide_True.
    + by rewrite IH.
Qed.

Lemma cols_loop_Ok columns d0 d :
  for_each columns
    (λ col d, name ← getitem "column_name" (column_name col);
              Ok (dict_set name col d)) d0 = Ok d →
  (∀ name, dict_get d name
           = match find_col name columns with
             | Some c => Some c
             | None => dict_get d0 name
             end).
Proof.
  revert d0. induction columns as [|c rest IH]; intros d0; simpl.
  - by intros [= ->].
  - destruct (column_name c) as [n|] eqn:Hn; simpl; [|done].
    intros Hd name. rewrite (IH _ Hd).
    destruct (find_col name rest); [done|].
    rewrite dict_get_set. destruct (decide (name = n)) as [->|Hne].
    + by rewrite decide_True.
    + rewrite decide_False; [done|]. by intros [= ->].
Qed.

Lemma cols_dict_get columns d name :
  cols_dict columns = Ok d → dict_get d name = find_col name columns.
Proof.
  intros Hd. unfold cols_dict in Hd. rewrite (cols_loop_Ok _ _ _ Hd).
  by destruct (find_col name columns).
Qed.

Lemma cols_dict_names columns d name :
  cols_dict columns = Ok d → name ∈ names d ↔ is_Some (find_col name columns).
Proof.
  intros Hd. unfold names. rewrite elem_of_list_to_set, <- dict_get_is_Some.
  by rewrite (cols_dict_get _ _ _ Hd).
Qed.

Lemma cols_loop_is_Ok columns d0 :
  is_Ok (for_each columns
           (λ col d, name ← getitem "column_name" (column_name col);
                     Ok (dict_set name col d)) d0)
  ↔ Forall (λ col, is_Some (column_name col)) columns.
Proof.
  revert d0. induction columns as [|c rest IH]; intros d0; simpl.
  - split; [constructor|]. intros _. by eexists.
  - rewrite Forall_cons. destruct (column_name c) as [n|]; simpl.
    + rewrite IH. split; [by intros ?; split; [eexists|]|by intros [_ ?]].
    + split; [by intros [? ?]|]. by intros [[? ?] _].
Qed.

Lemma cols_dict_is_Ok columns :
  is_Ok (cols_dict columns) ↔ Forall (λ col, is_Some (column_name col)) columns.
Proof. apply cols_loop_is_Ok. Qed.

(** ** What a loop adds for one key *)

Lemma filter_all {B} (P : B → Prop) `{∀ b, Decision (P b)} (l : list B) :
  Forall P l → filter P l = l.
Proof.
  induction 1 as [|b l Hb _ IH]; [done|].
  rewrite filter_cons_True by done. by rewrite IH.
Qed.

Lemma filter_none {B} (P : B → Prop) `{∀ b, Decision (P b)} (l : list B) :
  Forall (λ b, ¬ P b) l → filter P l = [].
Proof.
  induction 1 as [|b l Hb _ IH]; [done|].
  by rewrite filter_cons_False.
Qed.

Section collect_key.
Context {A B : Type} `{EqDecision A} (key : B → A) (f : A → result (list B)).
Hypothesis f_key : ∀ x r, f x = Ok r → Forall (λ b, key b = x) r.

Lemma collect_keys xs r :
  collect f xs = Ok r → Forall (λ b, key b ∈ xs) r.
Proof.
  revert r. induction xs as [|y xs IH]; intros r.
  - rewrite collect_nil. by intros [= <-].
  - rewrite collect_cons.
    destruct (f y) as [ry|] eqn:Hy; simpl; [|done].
    destruct (collect f xs) as [rs|]; simpl; [|done].
    intros [= <-]. apply Forall_app. split.
    + eapply Forall_impl; [by apply f_key|]. intros b ->. left.
    + eapply Forall_impl; [by apply IH|]. intros b ?. by right.
Qed.

Lemma collect_filter_notin xs r x :
  collect f xs = Ok r → x ∉ xs → filter (λ b, key b = x) r = [].
Proof.
  intros Hr Hx. apply filter_none.
  eapply Forall_impl; [by eapply collect_keys|].
  simpl. intros b Hb Hb'. by subst x.
Qed.

Lemma collect_filter_in xs r x rx :
  collect f xs = Ok r → NoDup xs → x ∈ xs → f x = Ok rx →
  filter (λ b, key b = x) r = rx.
Proof.
  revert r. induction xs as [|y xs IH]; intros r Hr Hnd Hx Hfx.
  { by apply elem_of_nil in Hx. }
  rewrite collect_cons in Hr.
  destruct (f y) as [ry|] eqn:Hy; simpl in Hr; [|done].
  destruct (collect f xs) as [rs|] eqn:Hrs; simpl in Hr; [|done].
  injection Hr as <-. rewrite filter_app.
  apply NoDup_cons in Hnd as [Hy' Hnd].
  destruct (decide (y = x)) as [->|Hne].
  - rewrite Hfx in Hy. injection Hy as <-.
    rewrite (collect_filter_notin xs rs x) by done.
    rewrite (right_id_L [] (++)). apply filter_all. by apply f_key.
  - apply elem_of_cons in Hx as [->|Hx]; [done|].
    rewrite (IH rs) by done.
    rewrite filter_none; [done|].
    eapply Forall_impl; [by apply f_key|]. simpl. intros b Hb Hb'. congruence.
Qed.
End collect_key.

(** A loop over distinct keys of which only [x] adds anything. *)
Lemma collect_single {A B} (f : A → result (list B)) xs x rx :
  NoDup xs → x ∈ xs → f x = Ok rx →
  (∀ y, y ∈ xs → y ≠ x → f y = Ok []) →
  collect f xs = Ok rx.
Proof.
  induction xs as [|y xs IH]; intros Hnd Hx Hfx Hothers.
  { by apply elem_of_nil in Hx. }
  apply NoDup_cons in Hnd as [Hy Hnd]. rewrite collect_cons.
  apply elem_of_cons in Hx as [->|Hx].
  - rewrite Hfx; simpl.
    rewrite (collect_Ok _ (λ _, [])).
    2:{ intros z Hz. apply Hothers; [by right|]. by intros ->. }
    simpl. f_equal.
    assert (xs ≫= (λ _ : A, @nil B) = []) as -> by (clear; by induction xs).
    apply (right_id_L [] (++)).
  - rewrite Hothers; [|left|by intros ->]. simpl.
    rewrite IH; [done..|]. intros; apply Hothers; [by right|done].
Qed.

Lemma collect_all_nil {A B} (f : A → result (list B)) xs :
  (∀ y, y ∈ xs → f y = Ok []) → collect f xs = Ok [].
Proof.
  intros Hf. rewrite (collect_Ok _ (λ _, [])) by done.
  f_equal. clear. induction xs; simpl; done.
Qed.

(** The same for a loop that adds exactly one entry per key. *)
Lemma fmap_filter_in {A B} `{EqDecision A} (key : B → A) (g : A → B) xs x :
  (∀ y, key (g y) = y) → NoDup xs → x ∈ xs →
  filter (λ b, key b = x) (g <$> xs) = [g x].
Proof.
  intros Hkey. induction xs as [|y xs IH]; intros Hnd Hx.
  { by apply elem_of_nil in Hx. }
  apply NoDup_cons in Hnd as [Hy Hnd]. rewrite fmap_cons.
  destruct (decide (y = x)) as [->|Hne].
  - rewrite filter_cons_True by done. f_equal.
    apply filter_none, Forall_fmap, Forall_forall. intros z Hz; simpl.
    rewrite Hkey. by intros ->.
  - rewrite filter_cons_False by (by rewrite Hkey).
    apply elem_of_cons in Hx as [->|Hx]; [done|]. by apply IH.
Qed.

Lemma fmap_filter_notin {A B} `{EqDecision A} (key : B → A) (g : A → B) xs x :
  (∀ y, key (g y) = y) → x ∉ xs →
  filter (λ b, key b = x) (g <$> xs) = [].
Proof.
  intros Hkey Hx. apply filter_none, Forall_fmap, Forall_forall.
  intros z Hz; simpl. rewrite Hkey. by intros ->.
Qed.

Lemma collect_item_Ok {A B} (f : A → result (list B)) xs r x :
  collect f xs = Ok r → x ∈ xs → is_Ok (f x).
Proof.
  intros Hr Hx. destruct (f x) as [rx|e] eqn:Hfx; [by exists rx|].
  destruct (collect_Raise f xs x Hx).
  - rewrite Hfx. by intros [? ?].
  - by exists r.
Qed.

(** ** What [_compare_columns] reports for one column name *)

Lemma missing_column_item_inv table label1 label2 d c r :
  missing_column_item table label1 label2 d c = Ok r →
  ∃ col ty nu, dict_get d c = Some col ∧ data_type col = Some ty
    ∧ is_nullable col = Some nu ∧ r = [missing_column table label1 label2 c ty nu].
Proof.
  unfold missing_column_item, dict_getitem.
  destruct (dict_get d c) as [col|] eqn:Hc; simpl; [|done].
  destruct (data_type col) as [ty|] eqn:Hty; simpl; [|done].
  destruct (is_nullable col) as [nu|] eqn:Hnu; simpl; [|done].
  intros [= <-]. by exists col, ty, nu.
Qed.

Lemma extra_column_item_inv table label1 label2 d c r :
  extra_column_item table label1 label2 d c = Ok r →
  ∃ col ty nu, dict_get d c = Some col ∧ data_type col = Some ty
    ∧ is_nullable col = Some nu ∧ r = [extra_column table label1 label2 c ty nu].
Proof.
  unfold extra_column_item, dict_getitem.
  destruct (dict_get d c) as [col|] eqn:Hc; simpl; [|done].
  destruct (data_type col) as [ty|] eqn:Hty; simpl; [|done].
  destruct (is_nullable col) as [nu|] eqn:Hnu; simpl; [|done].
  intros [= <-]. by exists col, ty, nu.
Qed.

Lemma mismatch_item_inv table label1 label2 d1 d2 c r :
  mismatch_item table label1 label2 d1 d2 c = Ok r →
  ∃ col1 col2 ty1 ty2 nu1 nu2,
    dict_get d1 c = Some col1 ∧ dict_get d2 c = Some col2
    ∧ data_type col1 = Some ty1 ∧ data_type col2 = Some ty2
    ∧ is_nullable col1 = Some nu1 ∧ is_nullable col2 = Some nu2
    ∧ r = if decide (ty1 = ty2 ∧ nu1 = nu2) then []
          else [column_mismatch table label1 label2 c ty1 ty2 nu1 nu2].
Proof.
  unfold mismatch_item, dict_getitem.
  destruct (dict_get d1 c) as [col1|] eqn:Hc1; simpl; [|done].
  destruct (dict_get d2 c) as [col2|] eqn:Hc2; simpl; [|done].
  destruct (data_type col1) as [ty1|] eqn:Hty1; simpl; [|done].
  destruct (data_type col2) as [ty2|] eqn:Hty2; simpl; [|done].
  destruct (is_nullable col1) as [nu1|] eqn:Hnu1; simpl; [|done].
  destruct (is_nullable col2) as [nu2|] eqn:Hnu2; simpl; [|done].
  intros Hr. exists col1, col2, ty1, ty2, nu1, nu2. split_and!; [done..|].
  destruct (decide (ty1 = ty2 ∧ nu1 = nu2)) as [[-> ->]|Hne].
  - rewrite !bool_decide_false in Hr by (by intros ?). simpl in Hr. by injection Hr.
  - assert (bool_decide (ty1 ≠ ty2) || bool_decide (nu1 ≠ nu2) = true) as Hb.
    { apply orb_true_iff. rewrite !bool_decide_eq_true.
      destruct (decide (ty1 = ty2)); [|by left].
      destruct (decide (nu1 = nu2)); [|by right]. naive_solver. }
    rewrite Hb in Hr. by injection Hr.
Qed.

Lemma missing_column_item_key table label1 label2 d c r :
  missing_column_item table label1 label2 d c = Ok r →
  Forall (λ x, diff_column x = c) r.
Proof.
  intros (col & ty & nu & _ & _ & _ & ->)%missing_column_item_inv.
  by repeat constructor.
Qed.

Lemma extra_column_item_key table label1 label2 d c r :
  extra_column_item table label1 label2 d c = Ok r →
  Forall (λ x, diff_column x = c) r.
Proof.
  intros (col & ty & nu & _ & _ & _ & ->)%extra_column_item_inv.
  by repeat constructor.
Qed.

Lemma mismatch_item_key table label1 label2 d1 d2 c r :
  mismatch_item table label1 label2 d1 d2 c = Ok r →
  Forall (λ x, diff_column x = c) r.
Proof.
  intros (col1 & col2 & ty1 & ty2 & nu1 & nu2 & _ & _ & _ & _ & _ & _ & ->)%mismatch_item_inv.
  case_decide; by repeat constructor.
Qed.

Lemma _compare_columns_inv table columns1 columns2 label1 label2 r :
  _compare_columns table columns1 columns2 label1 label2 = Ok r →
  ∃ d1 d2 a b c,
    cols_dict columns1 = Ok d1 ∧ cols_dict columns2 = Ok d2
    ∧ collect (missing_column_item table label1 label2 d1) (sorted (names d1 ∖ names d2)) = Ok a
    ∧ collect (extra_column_item table label1 label2 d2) (sorted (names d2 ∖ names d1)) = Ok b
    ∧ collect (mismatch_item table label1 label2 d1 d2) (sorted (names d1 ∩ names d2)) = Ok c
    ∧ r = a ++ b ++ c.
Proof.
  rewrite _compare_columns_collect.
  destruct (cols_dict columns1) as [d1|] eqn:H1; simpl; [|done].
  destruct (cols_dict columns2) as [d2|] eqn:H2; simpl; [|done].
  destruct (collect (missing_column_item _ _ _ _) _) as [a|] eqn:Ha; simpl; [|done].
  destruct (collect (extra_column_item _ _ _ _) _) as [b|] eqn:Hb; simpl; [|done].
  destruct (collect (mismatch_item _ _ _ _ _) _) as [c|] eqn:Hc; simpl; [|done].
  intros [= <-]. by exists d1, d2, a, b, c.
Qed.

Lemma _compare_columns_table table columns1 columns2 label1 label2 r :
  _compare_columns table columns1 columns2 label1 label2 = Ok r →
  Forall (λ x, table_name x = table ∧ column_kind (diff_type x)) r.
Proof.
  intros Hr. apply _compare_columns_inv in Hr
    as (d1 & d2 & a & b & c & _ & _ & Ha & Hb & Hc & ->).
  apply collect_inv in Ha as (ras & Ha & ->).
  apply collect_inv in Hb as (rbs & Hb & ->).
  apply collect_inv in Hc as (rcs & Hc & ->).
  rewrite !Forall_app, !Forall_concat. split_and!.
  - eapply Forall2_Forall_r; [done|]. apply Forall_true.
    intros x rx (col & ty & nu & _ & _ & _ & ->)%missing_column_item_inv.
    constructor; [|constructor]. split; [done|]. by left.
  - eapply Forall2_Forall_r; [done|]. apply Forall_true.
    intros x rx (col & ty & nu & _ & _ & _ & ->)%extra_column_item_inv.
    constructor; [|constructor]. split; [done|]. right; by left.
  - eapply Forall2_Forall_r; [done|]. apply Forall_true.
    intros x rx (? & ? & ? & ? & ? & ? & _ & _ & _ & _ & _ & _ & ->)%mismatch_item_inv.
    case_decide; [constructor|]. constructor; [|constructor].
    split; [done|]. right; by right.
Qed.

Section one_column.
Context (table label1 label2 : string) (columns1 columns2 : list column).
Context (r : list Difference).
Hypothesis Hr : _compare_columns table columns1 columns2 label1 label2 = Ok r.

Local Ltac split_result :=
  let d1 := fresh "d1" in let d2 := fresh "d2" in
  let Hr' := fresh "Hr'" in
  pose proof Hr as Hr';
  apply _compare_columns_inv in Hr'
    as (d1 & d2 & a & b & c & Hd1 & Hd2 & Ha & Hb & Hc & ->);
  rewrite !filter_app.

Local Ltac name_in_with H1 H2 :=
  rewrite ?elem_of_sorted, ?elem_of_difference, ?elem_of_intersection,
    ?(λ n, cols_dict_names _ _ n H1), ?(λ n, cols_dict_names _ _ n H2).

Lemma _compare_columns_only_db1 name col ty nu :
  find_col name columns1 = Some col → find_col name columns2 = None →
  data_type col = Some ty → is_nullable col = Some nu →
  filter (λ x, diff_column x = name) r
  = [missing_column table label1 label2 name ty nu].
Proof.
  intros H1 H2 Hty Hnu. split_result.
  rewrite (collect_filter_in diff_column _
             (missing_column_item_key table label1 label2 d1) _ a name
             [missing_column table label1 label2 name ty nu] Ha).
  - rewrite (collect_filter_notin diff_column _
               (extra_column_item_key table label1 label2 d2) _ b name Hb).
    + rewrite (collect_filter_notin diff_column _
                 (mismatch_item_key table label1 label2 d1 d2) _ c name Hc); [done|].
      name_in_with Hd1 Hd2. rewrite H2. by intros [_ [? ?]].
    + name_in_with Hd1 Hd2. rewrite H2. by intros [[? ?] _].
  - apply NoDup_sorted.
  - name_in_with Hd1 Hd2. rewrite H1, H2. split; [by eexists|by intros [? ?]].
  - unfold missing_column_item, dict_getitem.
    rewrite (cols_dict_get _ _ _ Hd1), H1; simpl. by rewrite Hty, Hnu.
Qed.

Lemma _compare_columns_only_db2 name col ty nu :
  find_col name columns1 = None → find_col name columns2 = Some col →
  data_type col = Some ty → is_nullable col = Some nu →
  filter (λ x, diff_column x = name) r
  = [extra_column table label1 label2 name ty nu].
Proof.
  intros H1 H2 Hty Hnu. split_result.
  rewrite (collect_filter_notin diff_column _
             (missing_column_item_key table label1 label2 d1) _ a name Ha).
  2:{ name_in_with Hd1 Hd2. rewrite H1. by intros [[? ?] _]. }
  rewrite (collect_filter_in diff_column _
             (extra_column_item_key table label1 label2 d2) _ b name
             [extra_column table label1 label2 name ty nu] Hb).
  - rewrite (collect_filter_notin diff_column _
               (mismatch_item_key table label1 label2 d1 d2) _ c name Hc); [done|].
    name_in_with Hd1 Hd2. rewrite H1. by intros [[? ?] _].
  - apply NoDup_sorted.
  - name_in_with Hd1 Hd2. rewrite H1, H2. split; [by eexists|by intros [? ?]].
  - unfold extra_column_item, dict_getitem.
    rewrite (cols_dict_get _ _ _ Hd2), H2; simpl. by rewrite Hty, Hnu.
Qed.

Lemma _compare_columns_both name col1 col2 ty1 ty2 nu1 nu2 :
  find_col name columns1 = Some col1 → find_col name columns2 = Some col2 →
  data_type col1 = Some ty1 → data_type col2 = Some ty2 →
  is_nullable col1 = Some nu1 → is_nullable col2 = Some nu2 →
  filter (λ x, diff_column x = name) r
  = if decide (ty1 = ty2 ∧ nu1 = nu2) then []
    else [column_mismatch table label1 label2 name ty1 ty2 nu1 nu2].
Proof.
  intros H1 H2 Hty1 Hty2 Hnu1 Hnu2. split_result.
  rewrite (collect_filter_notin diff_column _
             (missing_column_item_key table label1 label2 d1) _ a name Ha).
  2:{ name_in_with Hd1 Hd2. rewrite H2. intros [_ []]. by eexists. }
  rewrite (collect_filter_notin diff_column _
             (extra_column_item_key table label1 label2 d2) _ b name Hb).
  2:{ name_in_with Hd1 Hd2. rewrite H1. intros [_ []]. by eexists. }
  simpl.
  assert (name ∈ sorted (names d1 ∩ names d2)) as Hin.
  { name_in_with Hd1 Hd2. rewrite H1, H2. split; by eexists. }
  destruct (collect_item_Ok _ _ _ _ Hc Hin) as [rx Hrx].
  rewrite (collect_filter_in diff_column _
             (mismatch_item_key table label1 label2 d1 d2) _ c name rx Hc
             (NoDup_sorted _) Hin Hrx).
  apply mismatch_item_inv in Hrx
    as (c1 & c2 & t1 & t2 & n1 & n2 & Hg1 & Hg2 & Ht1 & Ht2 & Hn1 & Hn2 & ->).
  rewrite (cols_dict_get _ _ _ Hd1), H1 in Hg1.
  rewrite (cols_dict_get _ _ _ Hd2), H2 in Hg2.
  by simplify_eq.
Qed.

Lemma _compare_columns_neither name :
  find_col name columns1 = None → find_col name columns2 = None →
  filter (λ x, diff_column x = name) r = [].
Proof.
  intros H1 H2. split_result.
  rewrite (collect_filter_notin diff_column _
             (missing_column_item_key table label1 label2 d1) _ a name Ha).
  2:{ name_in_with Hd1 Hd2. rewrite H1. by intros [[? ?] _]. }
  rewrite (collect_filter_notin diff_column _
             (extra_column_item_key table label1 label2 d2) _ b name Hb).
  2:{ name_in_with Hd1 Hd2. rewrite H2. by intros [[? ?] _]. }
  rewrite (collect_filter_notin diff_column _
             (mismatch_item_key table label1 label2 d1 d2) _ c name Hc); [done|].
  name_in_with Hd1 Hd2. rewrite H1. by intros [[? ?] _].
Qed.
End one_column.

(** ** When the comparison returns *)

Lemma collect_is_Ok {A B} (f : A → result (list B)) xs :
  is_Ok (collect f xs) ↔ ∀ x, x ∈ xs → is_Ok (f x).
Proof.
  split.
  - intros [r Hr] x Hx. by eapply collect_item_Ok.
  - induction xs as [|x xs IH]; intros Hall; [by eexists|].
    rewrite collect_cons.
    destruct (Hall x) as [rx ->]; [left|]. simpl.
    destruct IH as [rs ->]; [intros; apply Hall; by right|]. by eexists.
Qed.

(** [_compare_columns] returns exactly when every descriptor has a name and
    the descriptor kept for each name has a type and a nullability. *)
Lemma _compare_columns_is_Ok table columns1 columns2 label1 label2 :
  is_Ok (_compare_columns table columns1 columns2 label1 label2)
  ↔ Forall (λ col, is_Some (column_name col)) columns1
    ∧ Forall (λ col, is_Some (column_name col)) columns2
    ∧ ∀ name col,
        find_col name columns1 = Some col ∨ find_col name columns2 = Some col →
        is_Some (data_type col) ∧ is_Some (is_nullable col).
Proof.
  split.
  - intros [r Hr]. apply _compare_columns_inv in Hr
      as (d1 & d2 & a & b & c & Hd1 & Hd2 & Ha & Hb & Hc & ->).
    split_and!.
    + apply cols_dict_is_Ok. by eexists.
    + apply cols_dict_is_Ok. by eexists.
    + intros name col Hcol.
      destruct (find_col name columns1) as [c1|] eqn:H1,
               (find_col name columns2) as [c2|] eqn:H2.
      * assert (name ∈ sorted (names d1 ∩ names d2)) as Hin.
        { rewrite elem_of_sorted, elem_of_intersection,
            (cols_dict_names _ _ _ Hd1), (cols_dict_names _ _ _ Hd2), H1, H2.
          split; by eexists. }
        destruct (collect_item_Ok _ _ _ _ Hc Hin) as [rx Hrx].
        apply mismatch_item_inv in Hrx
          as (? & ? & ? & ? & ? & ? & Hg1 & Hg2 & ? & ? & ? & ? & _).
        rewrite (cols_dict_get _ _ _ Hd1), H1 in Hg1.
        rewrite (cols_dict_get _ _ _ Hd2), H2 in Hg2.
        destruct Hcol; simplify_eq; split; by eexists.
      * assert (name ∈ sorted (names d1 ∖ names d2)) as Hin.
        { rewrite elem_of_sorted, elem_of_difference,
            (cols_dict_names _ _ _ Hd1), (cols_dict_names _ _ _ Hd2), H1, H2.
          split; [by eexists|by intros [? ?]]. }
        destruct (collect_item_Ok _ _ _ _ Ha Hin) as [rx Hrx].
        apply missing_column_item_inv in Hrx as (? & ? & ? & Hg1 & ? & ? & _).
        rewrite (cols_dict_get _ _ _ Hd1), H1 in Hg1.
        destruct Hcol; simplify_eq; split; by eexists.
      * assert (name ∈ sorted (names d2 ∖ names d1)) as Hin.
        { rewrite elem_of_sorted, elem_of_difference,
            (cols_dict_names _ _ _ Hd1), (cols_dict_names _ _ _ Hd2), H1, H2.
          split; [by eexists|by intros [? ?]]. }
        destruct (collect_item_Ok _ _ _ _ Hb Hin) as [rx Hrx].
        apply extra_column_item_inv in Hrx as (? & ? & ? & Hg2 & ? & ? & _).
        rewrite (cols_dict_get _ _ _ Hd2), H2 in Hg2.
        destruct Hcol; simplify_eq; split; by eexists.
      * by destruct Hcol.
  - intros (Hn1 & Hn2 & Hf).
    apply cols_dict_is_Ok in Hn1 as [d1 Hd1].
    apply cols_dict_is_Ok in Hn2 as [d2 Hd2].
    rewrite _compare_columns_collect, Hd1, Hd2; simpl.
    assert (is_Ok (collect (missing_column_item table label1 label2 d1)
                     (sorted (names d1 ∖ names d2)))) as [a ->].
    { apply collect_is_Ok. intros name.
      rewrite elem_of_sorted, elem_of_difference, (cols_dict_names _ _ _ Hd1).
      intros [[c1 H1] _]. destruct (Hf name c1) as [[ty Hty] [nu Hnu]]; [by left|].
      unfold missing_column_item, dict_getitem.
      rewrite (cols_dict_get _ _ _ Hd1), H1; simpl. rewrite Hty, Hnu. by eexists. }
    simpl.
    assert (is_Ok (collect (extra_column_item table label1 label2 d2)
                     (sorted (names d2 ∖ names d1)))) as [b ->].
    { apply collect_is_Ok. intros name.
      rewrite elem_of_sorted, elem_of_difference, (cols_dict_names _ _ _ Hd2).
      intros [[c2 H2] _]. destruct (Hf name c2) as [[ty Hty] [nu Hnu]]; [by right|].
      unfold extra_column_item, dict_getitem.
      rewrite (cols_dict_get _ _ _ Hd2), H2; simpl. rewrite Hty, Hnu. by eexists. }
    simpl.
    assert (is_Ok (collect (mismatch_item table label1 label2 d1 d2)
                     (sorted (names d1 ∩ names d2)))) as [c ->].
    { apply collect_is_Ok. intros name.
      rewrite elem_of_sorted, elem_of_intersection,
        (cols_dict_names _ _ _ Hd1), (cols_dict_names _ _ _ Hd2).
      intros [[c1 H1] [c2 H2]].
      destruct (Hf name c1) as [[ty1 Hty1] [nu1 Hnu1]]; [by left|].
      destruct (Hf name c2) as [[ty2 Hty2] [nu2 Hnu2]]; [by right|].
      unfold mismatch_item, dict_getitem.
      rewrite (cols_dict_get _ _ _ Hd1), (cols_dict_get _ _ _ Hd2), H1, H2; simpl.
      rewrite Hty1, Hty2, Hnu1, Hnu2; simpl.
      destruct (_ || _); by eexists. }
    simpl. by eexists.
Qed.

Lemma _compare_columns_wf_Ok table columns1 columns2 label1 label2 :
  Forall has_fields columns1 → Forall has_fields columns2 →
  is_Ok (_compare_columns table columns1 columns2 label1 label2).
Proof.
  intros H1 H2. apply _compare_columns_is_Ok. split_and!.
  - eapply Forall_impl; [done|]. by intros col (? & _).
  - eapply Forall_impl; [done|]. by intros col (? & _).
  - intros name col [[Hin _]%find_col_Some|[Hin _]%find_col_Some].
    + rewrite Forall_forall in H1. by destruct (H1 col Hin) as (_ & ? & ?).
    + rewrite Forall_forall in H2. by destruct (H2 col Hin) as (_ & ? & ?).
Qed.

(** ** What [_compare_tables] reports for one table *)

Lemma _compare_tables_inv label1 metadata1 label2 metadata2 r :
  _compare_tables label1 metadata1 label2 metadata2 = Ok r →
  ∃ c, collect (common_table_item label1 metadata1 label2 metadata2)
         (sorted (_get_all_tables metadata1 ∩ _get_all_tables metadata2)) = Ok c
     ∧ r = (missing_table label1 label2
              <$> sorted (_get_all_tables metadata1 ∖ _get_all_tables metadata2))
           ++ (extra_table label1 label2
              <$> sorted (_get_all_tables metadata2 ∖ _get_all_tables metadata1))
           ++ c.
Proof.
  rewrite _compare_tables_collect.
  destruct (collect _ _) as [c|] eqn:Hc; simpl; [|done].
  intros [= <-]. by exists c.
Qed.

Lemma elem_of_get_all_tables (metadata : snapshot) table :
  table ∈ _get_all_tables metadata ↔ is_Some (dict_get metadata table).
Proof.
  unfold _get_all_tables. by rewrite elem_of_list_to_set, dict_get_is_Some.
Qed.

Lemma common_table_item_key label1 metadata1 label2 metadata2 table r :
  common_table_item label1 metadata1 label2 metadata2 table = Ok r →
  Forall (λ x, table_name x = table) r.
Proof.
  unfold common_table_item.
  destruct (dict_getitem metadata1 table) as [c1|]; simpl; [|done].
  destruct (dict_getitem metadata2 table) as [c2|]; simpl; [|done].
  intros Hr. apply _compare_columns_table in Hr.
  eapply Forall_impl; [done|]. by intros x [? _].
Qed.

Lemma common_table_item_Some label1 metadata1 label2 metadata2 table c1 c2 :
  dict_get metadata1 table = Some c1 → dict_get metadata2 table = Some c2 →
  common_table_item label1 metadata1 label2 metadata2 table
  = _compare_columns table c1 c2 label1 label2.
Proof.
  intros H1 H2. unfold common_table_item, dict_getitem. by rewrite H1, H2.
Qed.

Section one_table.
Context (label1 label2 : string) (metadata1 metadata2 : snapshot).
Context (r : list Difference).
Hypothesis Hr : _compare_tables label1 metadata1 label2 metadata2 = Ok r.

Local Ltac table_in :=
  rewrite ?elem_of_sorted, ?elem_of_difference, ?elem_of_intersection,
    ?elem_of_get_all_tables.

Lemma _compare_tables_only_db1 table :
  is_Some (dict_get metadata1 table) → dict_get metadata2 table = None →
  filter (λ x, table_name x = table) r = [missing_table label1 label2 table].
Proof.
  intros H1 H2. destruct (_compare_tables_inv _ _ _ _ _ Hr) as (c & Hc & ->).
  rewrite !filter_app.
  rewrite (fmap_filter_in table_name (missing_table label1 label2)); [|done| |].
  - rewrite (fmap_filter_notin table_name (extra_table label1 label2)); [|done|].
    + rewrite (collect_filter_notin table_name _
                 (common_table_item_key label1 metadata1 label2 metadata2) _ c _ Hc);
        [done|].
      table_in. rewrite H2. by intros [_ [? ?]].
    + table_in. rewrite H2. by intros [[? ?] _].
  - apply NoDup_sorted.
  - table_in. rewrite H2. split; [done|by intros [? ?]].
Qed.

Lemma _compare_tables_only_db2 table :
  dict_get metadata1 table = None → is_Some (dict_get metadata2 table) →
  filter (λ x, table_name x = table) r = [extra_table label1 label2 table].
Proof.
  intros H1 H2. destruct (_compare_tables_inv _ _ _ _ _ Hr) as (c & Hc & ->).
  rewrite !filter_app.
  rewrite (fmap_filter_notin table_name (missing_table label1 label2)); [|done|].
  2:{ table_in. rewrite H1. by intros [[? ?] _]. }
  rewrite (fmap_filter_in table_name (extra_table label1 label2)); [|done| |].
  - rewrite (collect_filter_notin table_name _
               (common_table_item_key label1 metadata1 label2 metadata2) _ c _ Hc);
      [done|].
    table_in. rewrite H1. by intros [[? ?] _].
  - apply NoDup_sorted.
  - table_in. rewrite H1. split; [done|by intros [? ?]].
Qed.

Lemma _compare_tables_common table columns1 columns2 :
  dict_get metadata1 table = Some columns1 →
  dict_get metadata2 table = Some columns2 →
  _compare_columns table columns1 columns2 label1 label2
  = Ok (filter (λ x, table_name x = table) r).
Proof.
  intros H1 H2. destruct (_compare_tables_inv _ _ _ _ _ Hr) as (c & Hc & ->).
  rewrite !filter_app.
  rewrite (fmap_filter_notin table_name (missing_table label1 label2)); [|done|].
  2:{ table_in. rewrite H2. intros [_ []]. by eexists. }
  rewrite (fmap_filter_notin table_name (extra_table label1 label2)); [|done|].
  2:{ table_in. rewrite H1. intros [_ []]. by eexists. }
  simpl.
  assert (table ∈ sorted (_get_all_tables metadata1 ∩ _get_all_tables metadata2))
    as Hin by (table_in; rewrite H1, H2; split; by eexists).
  destruct (collect_item_Ok _ _ _ _ Hc Hin) as [rt Hrt].
  rewrite (collect_filter_in table_name _
             (common_table_item_key label1 metadata1 label2 metadata2) _ c _ rt Hc
             (NoDup_sorted _) Hin Hrt).
  by rewrite <- (common_table_item_Some label1 metadata1 label2 metadata2 table).
Qed.
End one_table.

Lemma _compare_tables_is_Ok label1 metadata1 label2 metadata2 :
  is_Ok (_compare_tables label1 metadata1 label2 metadata2)
  ↔ ∀ table columns1 columns2,
      dict_get metadata1 table = Some columns1 →
      dict_get metadata2 table = Some columns2 →
      is_Ok (_compare_columns table columns1 columns2 label1 label2).
Proof.
  rewrite _compare_tables_collect. split.
  - intros [r Hr] table c1 c2 H1 H2.
    destruct (collect _ _) as [c|] eqn:Hc; simpl in Hr; [|done].
    rewrite <- (common_table_item_Some label1 metadata1 label2 metadata2 table) by done.
    eapply collect_item_Ok; [done|].
    rewrite elem_of_sorted, elem_of_intersection, !elem_of_get_all_tables, H1, H2.
    split; by eexists.
  - intros Hall.
    assert (is_Ok (collect (common_table_item label1 metadata1 label2 metadata2)
      (sorted (_get_all_tables metadata1 ∩ _get_all_tables metadata2)))) as [c ->].
    { apply collect_is_Ok. intros table.
      rewrite elem_of_sorted, elem_of_intersection, !elem_of_get_all_tables.
      intros [[c1 H1] [c2 H2]].
      rewrite (common_table_item_Some _ _ _ _ _ _ _ H1 H2). by apply Hall. }
    simpl. by eexists.
Qed.

Lemma wf_snapshot_lookup (metadata : snapshot) table columns :
  wf_snapshot metadata → dict_get metadata table = Some columns → wf_columns columns.
Proof.
  intros Hwf Hget%dict_get_elem_of. unfold wf_snapshot in Hwf.
  rewrite Forall_forall in Hwf. by apply (Hwf (table, columns)).
Qed.

Lemma _compare_tables_wf_Ok label1 metadata1 label2 metadata2 :
  wf_snapshot metadata1 → wf_snapshot metadata2 →
  is_Ok (_compare_tables label1 metadata1 label2 metadata2).
Proof.
  intros Hwf1 Hwf2. apply _compare_tables_is_Ok. intros table c1 c2 H1 H2.
  apply _compare_columns_wf_Ok.
  - by destruct (wf_snapshot_lookup _ _ _ Hwf1 H1).
  - by destruct (wf_snapshot_lookup _ _ _ Hwf2 H2).
Qed.

Lemma filter_table_column (l : list Difference) table name :
  filter (λ x, table_name x = table ∧ diff_column x = name) l
  = filter (λ x, diff_column x = name) (filter (λ x, table_name x = table) l).
Proof. rewrite list_filter_filter. apply list_filter_iff. naive_solver. Qed.

(** ** Table and column differences between two snapshots *)

(** C1. For well-formed snapshots the comparison returns, and in its result:
    a table only in db1 has exactly one entry, a [MISSING_TABLE] with empty
    column name; a table only in db2 has exactly one entry, an
    [EXTRA_TABLE]; for a table of both, a column name only in db1 has
    exactly one entry, a [MISSING_COLUMN] whose detail gives db1's type and
    nullability, a column name only in db2 has exactly one entry, an
    [EXTRA_COLUMN] with db2's type and nullability, and a column that is the
    same on both sides has no entry. *)
Theorem compare_tables_one_sided label1 metadata1 label2 metadata2 :
  wf_snapshot metadata1 → wf_snapshot metadata2 →
  ∃ diffs, _compare_tables label1 metadata1 label2 metadata2 = Ok diffs
  ∧ (∀ table, is_Some (dict_get metadata1 table) → dict_get metadata2 table = None →
       filter (λ x, table_name x = table) diffs
       = [mkDifference MISSING_TABLE table ""
            ("Table exists in " +:+ label1 +:+ " but not in " +:+ label2)
            label1 label2])
  ∧ (∀ table, dict_get metadata1 table = None → is_Some (dict_get metadata2 table) →
       filter (λ x, table_name x = table) diffs
       = [mkDifference EXTRA_TABLE table ""
            ("Table exists in " +:+ label2 +:+ " but not in " +:+ label1)
            label1 label2])
  ∧ (∀ table columns1 columns2,
       dict_get metadata1 table = Some columns1 →
       dict_get metadata2 table = Some columns2 →
       (∀ name ty nu,
          Column (Some name) (Some ty) (Some nu) ∈ columns1 →
          (∀ col, col ∈ columns2 → column_name col ≠ Some name) →
          filter (λ x, table_name x = table ∧ diff_column x = name) diffs
          = [mkDifference MISSING_COLUMN table name
               ("Column exists in " +:+ label1 +:+ " but not in " +:+ label2
                  +:+ " (type: " +:+ str ty +:+ ", nullable: " +:+ str nu +:+ ")")
               label1 label2])
       ∧ (∀ name ty nu,
          Column (Some name) (Some ty) (Some nu) ∈ columns2 →
          (∀ col, col ∈ columns1 → column_name col ≠ Some name) →
          filter (λ x, table_name x = table ∧ diff_column x = name) diffs
          = [mkDifference EXTRA_COLUMN table name
               ("Column exists in " +:+ label2 +:+ " but not in " +:+ label1
                  +:+ " (type: " +:+ str ty +:+ ", nullable: " +:+ str nu +:+ ")")
               label1 label2])
       ∧ (∀ name col,
          col ∈ columns1 → col ∈ columns2 → column_name col = Some name →
          filter (λ x, table_name x = table ∧ diff_column x = name) diffs = [])).
Proof.
  intros Hwf1 Hwf2.
  destruct (_compare_tables_wf_Ok label1 metadata1 label2 metadata2 Hwf1 Hwf2)
    as [diffs Hr].
  exists diffs. split_and!; [done|..].
  - intros table H1 H2. by apply (_compare_tables_only_db1 _ _ _ _ _ Hr).
  - intros table H1 H2. by apply (_compare_tables_only_db2 _ _ _ _ _ Hr).
  - intros table columns1 columns2 H1 H2.
    pose proof (_compare_tables_common _ _ _ _ _ Hr _ _ _ H1 H2) as Hc.
    destruct (wf_snapshot_lookup _ _ _ Hwf1 H1) as [Hf1 Hn1].
    destruct (wf_snapshot_lookup _ _ _ Hwf2 H2) as [Hf2 Hn2].
    split_and!.
    + intros name ty nu Hin Hout. rewrite filter_table_column.
      apply (_compare_columns_only_db1 _ _ _ _ _ _ Hc name
               (Column (Some name) (Some ty) (Some nu)) ty nu);
        [by apply find_col_NoDup|by apply find_col_None|done|done].
    + intros name ty nu Hin Hout. rewrite filter_table_column.
      apply (_compare_columns_only_db2 _ _ _ _ _ _ Hc name
               (Column (Some name) (Some ty) (Some nu)) ty nu);
        [by apply find_col_None|by apply find_col_NoDup|done|done].
    + intros name col Hin1 Hin2 Hname. rewrite filter_table_column.
      rewrite Forall_forall in Hf1.
      destruct (Hf1 col Hin1) as (_ & [ty Hty] & [nu Hnu]).
      rewrite (_compare_columns_both _ _ _ _ _ _ Hc name col col ty ty nu nu);
        [by rewrite decide_True|by apply find_col_NoDup..|done|done|done|done].
Qed.

Lemma wf_shop_v1 : wf_snapshot shop_v1.
Proof. refine (bool_decide_unpack _ _). vm_compute. exact I. Qed.

Lemma wf_shop_v2 : wf_snapshot shop_v2.
Proof. refine (bool_decide_unpack _ _). vm_compute. exact I. Qed.

Lemma compare_tables_one_sided_witness :
  wf_snapshot shop_v1 ∧ wf_snapshot shop_v2
  ∧ ∃ diffs, _compare_tables "db1" shop_v1 "db2" shop_v2 = Ok diffs
      ∧ filter (λ x, table_name x = "orders") diffs
        = [mkDifference MISSING_TABLE "orders" ""
             "Table exists in db1 but not in db2" "db1" "db2"]
      ∧ filter (λ x, table_name x = "audit") diffs
        = [mkDifference EXTRA_TABLE "audit" ""
             "Table exists in db2 but not in db1" "db1" "db2"]
      ∧ filter (λ x, table_name x = "users" ∧ diff_column x = "email") diffs
        = [mkDifference MISSING_COLUMN "users" "email"
             "Column exists in db1 but not in db2 (type: text, nullable: YES)"
             "db1" "db2"]
      ∧ filter (λ x, table_name x = "users" ∧ diff_column x = "phone") diffs
        = [mkDifference EXTRA_COLUMN "users" "phone"
             "Column exists in db2 but not in db1 (type: text, nullable: YES)"
             "db1" "db2"].
Proof.
  split; [exact wf_shop_v1|]. split; [exact wf_shop_v2|].
  destruct (compare_tables_one_sided "db1" shop_v1 "db2" shop_v2 wf_shop_v1 wf_shop_v2)
    as (diffs & Hr & Hmissing & Hextra & Hcommon).
  destruct (Hcommon "users" [col "id" "int" "NO"; col "email" "text" "YES"]
              [col "id" "bigint" "YES"; col "phone" "text" "YES"] eq_refl eq_refl)
    as (Hmc & Hec & _).
  exists diffs. split; [exact Hr|]. split_and!.
  - apply Hmissing; [by eexists|reflexivity].
  - apply Hextra; [reflexivity|by eexists].
  - apply (Hmc "email" (VStr "text") (VStr "YES")).
    + right; left.
    + intros c Hc.
      repeat (apply elem_of_cons in Hc as [->|Hc]; [unfold col; simpl; discriminate|]).
      apply elem_of_nil in Hc. destruct Hc.
  - apply (Hec "phone" (VStr "text") (VStr "YES")).
    + right; left.
    + intros c Hc.
      repeat (apply elem_of_cons in Hc as [->|Hc]; [unfold col; simpl; discriminate|]).
      apply elem_of_nil in Hc. destruct Hc.
Defined.

(** ** Columns of both snapshots that disagree *)

(** C3. A column of both snapshots whose type and/or nullability differ has
    exactly one entry, a [COLUMN_MISMATCH]; its detail has one clause per
    differing field, [data_type: <label1>=X vs <label2>=Y] and
    [nullable: <label1>=A vs <label2>=B], joined by ["; "] when both differ,
    and no clause for a field that agrees. *)
Theorem compare_tables_mismatch label1 metadata1 label2 metadata2
    table columns1 columns2 name ty1 nu1 ty2 nu2 :
  wf_snapshot metadata1 → wf_snapshot metadata2 →
  dict_get metadata1 table = Some columns1 →
  dict_get metadata2 table = Some columns2 →
  Column (Some name) (Some ty1) (Some nu1) ∈ columns1 →
  Column (Some name) (Some ty2) (Some nu2) ∈ columns2 →
  ty1 ≠ ty2 ∨ nu1 ≠ nu2 →
  ∃ diffs detail,
    _compare_tables label1 metadata1 label2 metadata2 = Ok diffs
    ∧ filter (λ x, table_name x = table ∧ diff_column x = name) diffs
      = [mkDifference COLUMN_MISMATCH table name detail label1 label2]
    ∧ (ty1 ≠ ty2 → nu1 ≠ nu2 →
       detail = ("data_type: " +:+ label1 +:+ "=" +:+ str ty1 +:+ " vs "
                   +:+ label2 +:+ "=" +:+ str ty2)
                +:+ "; " +:+
                ("nullable: " +:+ label1 +:+ "=" +:+ str nu1 +:+ " vs "
                   +:+ label2 +:+ "=" +:+ str nu2))
    ∧ (ty1 ≠ ty2 → nu1 = nu2 →
       detail = "data_type: " +:+ label1 +:+ "=" +:+ str ty1 +:+ " vs "
                  +:+ label2 +:+ "=" +:+ str ty2)
    ∧ (ty1 = ty2 → nu1 ≠ nu2 →
       detail = "nullable: " +:+ label1 +:+ "=" +:+ str nu1 +:+ " vs "
                  +:+ label2 +:+ "=" +:+ str nu2).
Proof.
  intros Hwf1 Hwf2 H1 H2 Hin1 Hin2 Hdiff.
  destruct (_compare_tables_wf_Ok label1 metadata1 label2 metadata2 Hwf1 Hwf2)
    as [diffs Hr].
  exists diffs, (mismatch_detail label1 label2 ty1 ty2 nu1 nu2).
  pose proof (_compare_tables_common _ _ _ _ _ Hr _ _ _ H1 H2) as Hc.
  destruct (wf_snapshot_lookup _ _ _ Hwf1 H1) as [_ Hn1].
  destruct (wf_snapshot_lookup _ _ _ Hwf2 H2) as [_ Hn2].
  split_and!; [done|..].
  - rewrite filter_table_column.
    rewrite (_compare_columns_both _ _ _ _ _ _ Hc name
               (Column (Some name) (Some ty1) (Some nu1))
               (Column (Some name) (Some ty2) (Some nu2)) ty1 ty2 nu1 nu2);
      [|by apply find_col_NoDup..|done|done|done|done].
    rewrite decide_False; [done|]. naive_solver.
  - intros Hty Hnu. unfold mismatch_detail.
    by rewrite !bool_decide_true.
  - intros Hty ->. unfold mismatch_detail.
    rewrite bool_decide_true, bool_decide_false by (done || by intros ?). done.
  - intros -> Hnu. unfold mismatch_detail.
    rewrite bool_decide_false, bool_decide_true by (done || by intros ?). done.
Qed.

Lemma compare_tables_mismatch_witness :
  ∃ diffs,
    _compare_tables "db1" shop_v1 "db2" shop_v2 = Ok diffs
    ∧ filter (λ x, table_name x = "users" ∧ diff_column x = "id") diffs
      = [mkDifference COLUMN_MISMATCH "users" "id"
           "data_type: db1=int vs db2=bigint; nullable: db1=NO vs db2=YES"
           "db1" "db2"].
Proof.
  destruct (compare_tables_mismatch "db1" shop_v1 "db2" shop_v2 "users"
              [col "id" "int" "NO"; col "email" "text" "YES"]
              [col "id" "bigint" "YES"; col "phone" "text" "YES"]
              "id" (VStr "int") (VStr "NO") (VStr "bigint") (VStr "YES")
              wf_shop_v1 wf_shop_v2 eq_refl eq_refl)
    as (diffs & detail & Hr & Hone & Hboth & _).
  - left.
  - left.
  - left. discriminate.
  - exists diffs. split; [exact Hr|].
    rewrite Hone. rewrite Hboth by discriminate. reflexivity.
Defined.

(** ** Masking *)

Lemma take_chars_prefix n s :
  n ≤ String.length s →
  ∃ rest, s = take_chars n s +:+ rest ∧ String.length (take_chars n s) = n.
Proof.
  revert s. induction n as [|n IH]; intros s Hn.
  - exists s. by destruct s.
  - destruct s as [|c s]; simpl in *; [lia|].
    destruct (IH s) as (rest & Hs & Hlen); [lia|].
    exists rest. split; [|by rewrite Hlen].
    by rewrite Hs at 1.
Qed.

(** C9. For a visible length [n >= 0], [mask_string s n] is ["***"] when [s]
    has at most [n] characters, and otherwise the first [n] characters of [s]
    followed by ["***"]. *)
Theorem mask_string_spec (value : string) (n : Z) :
  (0 ≤ n)%Z →
  ((Z.of_nat (String.length value) ≤ n)%Z → mask_string value n = "***")
  ∧ ((n < Z.of_nat (String.length value))%Z →
     ∃ prefix rest,
       value = prefix +:+ rest ∧ Z.of_nat (String.length prefix) = n
       ∧ mask_string value n = prefix +:+ "***").
Proof.
  intros Hn. unfold mask_string. split.
  - intros Hle. rewrite (bool_decide_true (_ ≤ _)%Z) by done.
    by rewrite orb_true_r.
  - intros Hlt.
    rewrite (bool_decide_false (_ ≤ _)%Z) by lia.
    rewrite bool_decide_false by (intros ->; simpl in Hlt; lia).
    simpl. unfold slice_to. rewrite decide_True by done.
    destruct (take_chars_prefix (Z.to_nat n) value) as (rest & Hs & Hlen); [lia|].
    exists (take_chars (Z.to_nat n) value), rest. split_and!; [done|lia|done].
Qed.

Lemma mask_string_spec_witness :
  mask_string "" 3 = "***"
  ∧ mask_string "ab" 3 = "***"
  ∧ mask_string_default "secretvalue" = "sec***".
Proof.
  split; [|split].
  - apply (mask_string_spec "" 3); [lia|simpl; lia].
  - apply (mask_string_spec "ab" 3); [lia|simpl; lia].
  - destruct (mask_string_spec "secretvalue" 3) as [_ Hlong]; [lia|].
    destruct Hlong as (prefix & rest & Hs & Hlen & Hmask); [simpl; lia|].
    reflexivity.
Defined.

(** ** The pairs that [generate_diff_report] compares *)

Lemma collect_fmap {A B C} (f : B → result (list C)) (g : A → B) xs :
  collect f (g <$> xs) = collect (f ∘ g) xs.
Proof.
  induction xs as [|x xs IH]; [done|].
  rewrite fmap_cons, !collect_cons, IH. done.
Qed.

(** A loop over indices is a loop over the elements at these indices. *)
Lemma for_each_seq {X S} (xs : list X) (body_i : nat → S → result S)
    (body_x : X → S → result S) :
  (∀ i x s, xs !! i = Some x → body_i i s = body_x x s) →
  ∀ n k s, n = length xs - k →
    for_each (seq k n) body_i s = for_each (drop k xs) body_x s.
Proof.
  intros Hbody. induction n as [|n IH]; intros k s Hn; simpl.
  - by rewrite drop_ge by lia.
  - destruct (lookup_lt_is_Some_2 xs k) as [x Hx]; [lia|].
    rewrite (drop_S _ _ _ Hx); simpl. rewrite (Hbody _ _ _ Hx).
    destruct (body_x x s) as [s'|]; simpl; [|done].
    apply IH. lia.
Qed.

Lemma compare_all_pairs (metadata_map : pydict (list (string * list column))) :
  NoDup (dict_keys metadata_map) →
  compare_all metadata_map = collect compare_pair (pairs metadata_map).
Proof.
  intros Hnd. unfold compare_all.
  set (labels := dict_keys metadata_map).
  assert (length labels = length metadata_map) as Hlen
    by (unfold labels, dict_keys; by rewrite length_fmap).
  rewrite Hlen.
  (* the inner loop, for the element [x] at position [i] *)
  assert (∀ i x s, metadata_map !! i = Some x →
            for_each (seq (i + 1) (length metadata_map - (i + 1)))
              (λ j all_differences,
                 label1 ← list_getitem labels i;
                 label2 ← list_getitem labels j;
                 metadata1 ← dict_getitem metadata_map label1;
                 metadata2 ← dict_getitem metadata_map label2;
                 diffs ← _compare_tables label1 metadata1 label2 metadata2;
                 Ok (all_differences ++ diffs)) s
            = r ← collect compare_pair (pair x <$> drop (S i) metadata_map);
              Ok (s ++ r)) as Hinner.
  { intros i [l1 m1] s Hi.
    rewrite (for_each_seq metadata_map _
               (λ y all_differences,
                  diffs ← compare_pair ((l1, m1), y); Ok (all_differences ++ diffs))
               ) with (k := i + 1); [| |done].
    - rewrite Nat.add_1_r, collect_fmap.
      by apply for_each_collect.
    - intros j [l2 m2] s' Hj. unfold list_getitem, labels, dict_keys.
      rewrite !list_lookup_fmap, Hi, Hj; simpl.
      unfold dict_getitem.
      rewrite (dict_get_NoDup metadata_map l1 m1), (dict_get_NoDup metadata_map l2 m2);
        [done|done|by eapply list_elem_of_lookup_2|done|by eapply list_elem_of_lookup_2]. }
  (* the outer loop, from position [k] on *)
  assert (∀ n k s, n = length metadata_map - k →
            for_each (seq k n)
              (λ i all_differences,
                 for_each (seq (i + 1) (length metadata_map - (i + 1)))
                   (λ j all_differences,
                      label1 ← list_getitem labels i;
                      label2 ← list_getitem labels j;
                      metadata1 ← dict_getitem metadata_map label1;
                      metadata2 ← dict_getitem metadata_map label2;
                      diffs ← _compare_tables label1 metadata1 label2 metadata2;
                      Ok (all_differences ++ diffs)) all_differences) s
            = r ← collect compare_pair (pairs (drop k metadata_map)); Ok (s ++ r))
    as Houter.
  { induction n as [|n IH]; intros k s Hn; simpl.
    - rewrite drop_ge by lia. simpl. by rewrite (right_id_L [] (++)).
    - destruct (lookup_lt_is_Some_2 metadata_map k) as [x Hx]; [lia|].
      rewrite (drop_S _ _ _ Hx); simpl.
      rewrite (Hinner _ _ _ Hx), collect_app.
      destruct (collect compare_pair (pair x <$> _)) as [r1|]; simpl; [|done].
      rewrite IH by lia.
      destruct (collect compare_pair (pairs _)) as [r2|]; simpl; [|done].
      by rewrite (assoc_L (++)). }
  rewrite (Houter (length metadata_map) 0 []) by lia.
  rewrite drop_0. by destruct (collect compare_pair _).
Qed.

Lemma elem_of_pairs {A} (l : list A) x y : (x, y) ∈ pairs l → x ∈ l ∧ y ∈ l.
Proof.
  induction l as [|z l IH]; simpl; [by intros ?%elem_of_nil|].
  rewrite elem_of_app, list_elem_of_fmap.
  intros [(y' & [= -> ->] & Hy)|Hin].
  - split; [left|by right].
  - destruct (IH Hin). split; by right.
Qed.

Lemma bind_ret_fmap {A B} (g : A → B) (l : list A) :
  l ≫= (λ x, [g x]) = g <$> l.
Proof. induction l as [|x l IH]; [done|]. rewrite bind_cons, IH. done. Qed.

Lemma fmap_bind_list {A B C} (f : B → C) (g : A → list B) (l : list A) :
  f <$> (l ≫= g) = l ≫= (λ x, f <$> g x).
Proof.
  induction l as [|x l IH]; [done|].
  rewrite !bind_cons, fmap_app, IH. done.
Qed.

Lemma index_pairs_S n :
  index_pairs (S n)
  = (pair 0 <$> seq 1 n) ++ ((λ ij, (S ij.1, S ij.2)) <$> index_pairs n).
Proof.
  unfold index_pairs. rewrite <- cons_seq, bind_cons. f_equal.
  - replace (S n - (0 + 1)) with n by lia. apply bind_ret_fmap.
  - rewrite <- fmap_S_seq, list_fmap_bind, fmap_bind_list.
    apply list_bind_ext; [|done]. intros i; simpl.
    replace (S n - (S i + 1)) with (n - (i + 1)) by lia.
    replace (S (i + 1)) with (S i + 1) by lia.
    replace (S i + 1) with (S (i + 1)) by lia.
    rewrite <- fmap_S_seq, list_fmap_bind, fmap_bind_list.
    apply list_bind_ext; done.
Qed.

(** The pairs of a list are its elements at the positions [i < j], in the
    order of the two nested loops. *)
Lemma pairs_index_pairs {A} (l : list A) :
  (λ p, (Some p.1, Some p.2)) <$> pairs l
  = (λ ij, (l !! ij.1, l !! ij.2)) <$> index_pairs (length l).
Proof.
  induction l as [|x l IH]; [done|].
  cbn [pairs length]. rewrite index_pairs_S, !fmap_app. f_equal.
  - rewrite <- !list_fmap_compose.
    rewrite <- fmap_S_seq, <- list_fmap_compose.
    apply list_eq. intros i. rewrite !list_lookup_fmap.
    destruct (l !! i) as [y|] eqn:Hy; simpl.
    + rewrite lookup_seq_lt by (by eapply lookup_lt_Some). simpl. by rewrite Hy.
    + rewrite lookup_seq_ge by (by apply lookup_ge_None). done.
  - rewrite IH, <- !list_fmap_compose. done.
Qed.

(** ** The label map *)

Section metadata_map.
Context {V : Type}.
Implicit Types (d es : pydict V).

Lemma fold_dict_set_NoDup es d :
  NoDup (dict_keys d) → NoDup (dict_keys (fold_left set_entry es d)).
Proof.
  revert d. induction es as [|e es IH]; intros d Hd; simpl; [done|].
  apply IH. by apply NoDup_dict_set.
Qed.

Lemma fold_dict_set_fresh es d :
  NoDup (dict_keys d ++ es.*1) → fold_left set_entry es d = d ++ es.
Proof.
  revert d. induction es as [|[k v] es IH]; intros d Hnd; simpl.
  - by rewrite (right_id_L [] (++)).
  - unfold set_entry at 2; simpl. rewrite dict_set_fresh.
    + rewrite IH; [by rewrite <- (assoc_L (++))|].
      unfold dict_keys. rewrite fmap_app, <- (assoc_L (++)). done.
    + apply NoDup_app in Hnd as (_ & Hnd & _). intros Hk.
      apply (Hnd k Hk). left.
Qed.

Lemma fold_dict_set_elem_of es d e :
  e ∈ fold_left set_entry es d → e ∈ d ∨ e ∈ es.
Proof.
  revert d. induction es as [|[k v] es IH]; intros d; simpl; [by left|].
  intros [Hin|Hin]%IH; [|right; by right].
  unfold set_entry in Hin; simpl in Hin.
  clear IH. induction d as [|[k0 v0] d IHd]; simpl in Hin.
  - apply list_elem_of_singleton in Hin as ->. right; left.
  - case_decide; subst.
    + apply elem_of_cons in Hin as [->|Hin]; [right; left|left; by right].
    + apply elem_of_cons in Hin as [->|Hin]; [left; left|].
      destruct (IHd Hin) as [?|?]; [left; by right|by right].
Qed.

Lemma dict_set_set d k v v' : dict_set k v (dict_set k v' d) = dict_set k v d.
Proof.
  induction d as [|[k0 v0] d IH]; simpl.
  - by rewrite decide_True.
  - case_decide; simpl.
    + by rewrite decide_True.
    + rewrite decide_False by done. by rewrite IH.
Qed.

Lemma dict_set_comm d k v k' v' :
  k ∈ dict_keys d → k ≠ k' →
  dict_set k v (dict_set k' v' d) = dict_set k' v' (dict_set k v d).
Proof.
  unfold dict_keys. induction d as [|[k0 v0] d IH]; simpl.
  - by intros ?%elem_of_nil.
  - intros Hin Hne. destruct (decide (k' = k0)) as [->|Hk'].
    + simpl. rewrite decide_False by done. simpl.
      rewrite decide_False by done. simpl. by rewrite decide_True.
    + simpl. destruct (decide (k = k0)) as [->|Hk]; simpl.
      * by rewrite decide_False by done.
      * rewrite decide_False by done. f_equal. apply IH; [|done].
        apply elem_of_cons in Hin as [?|?]; done.
Qed.

(** Setting a key that is already there commutes with later insertions of
    other keys: the key keeps its position. *)
Lemma fold_dict_set_overwrite es d k v :
  k ∈ dict_keys d → k ∉ es.*1 →
  dict_set k v (fold_left set_entry es d) = fold_left set_entry es (dict_set k v d).
Proof.
  revert d. induction es as [|[k' v'] es IH]; intros d Hin Hout; simpl; [done|].
  apply not_elem_of_cons in Hout as [Hne Hout]; simpl in Hne.
  rewrite IH; [|by apply elem_of_dict_keys_set; right|done].
  unfold set_entry at 2 4; simpl. by rewrite dict_set_comm.
Qed.

(** A second assignment to a key replaces what the first one stored. *)
Lemma fold_set_entry_repeated es d k v v' :
  k ∉ es.*1 →
  set_entry (fold_left set_entry es (set_entry d (k, v'))) (k, v)
  = fold_left set_entry es (set_entry d (k, v)).
Proof.
  intros Hout.
  change (dict_set k v (fold_left set_entry es (dict_set k v' d))
          = fold_left set_entry es (dict_set k v d)).
  rewrite fold_dict_set_overwrite; [|apply elem_of_dict_keys_set; by left|done].
  by rewrite dict_set_set.
Qed.
End metadata_map.

Lemma metadata_map_of_NoDup entries : NoDup (dict_keys (metadata_map_of entries)).
Proof. apply fold_dict_set_NoDup. constructor. Qed.

Lemma metadata_map_of_distinct entries :
  NoDup entries.*1 → metadata_map_of entries = entries.
Proof. intros Hnd. by apply (fold_dict_set_fresh entries []). Qed.

(** The label map that a run builds is [metadata_map_of] of the labels of
    [metadata_files], each with the snapshot that its load returned. *)
Lemma load_all_entries json_load metadata_files metadata_map w mm w' :
  load_all json_load metadata_files metadata_map w = (Ok mm, w') →
  ∃ snapshots,
    length snapshots = length metadata_files
    ∧ mm = fold_left set_entry
             (zip ((λ f, f.1.1) <$> metadata_files) snapshots) metadata_map.
Proof.
  revert metadata_map w.
  induction metadata_files as [|[[label filepath] c] rest IH];
    intros metadata_map w; simpl.
  - intros [= <- <-]. by exists [].
  - destruct (_load_metadata json_load filepath w) as [[m|e] w1]; [|done].
    intros (snapshots & Hlen & ->)%IH.
    exists (m :: snapshots). split; [simpl; by rewrite Hlen|done].
Qed.

Lemma load_all_metadata_map_of json_load metadata_files w mm w' :
  load_all json_load metadata_files [] w = (Ok mm, w') →
  ∃ snapshots,
    length snapshots = length metadata_files
    ∧ mm = metadata_map_of (zip ((λ f, f.1.1) <$> metadata_files) snapshots).
Proof. apply load_all_entries. Qed.

(** ** Pair enumeration *)

(** C5. For distinctly labelled entries the comparison runs [_compare_tables]
    on the pairs of entries [(i, j)] with [i] before [j] ([i] as db1, [j] as
    db2), [i] from first to last and [j] after [i], stops at the first
    exception, and otherwise returns the concatenation of the results of the
    pairs in that order. *)
Theorem compare_all_pair_order (entries : list (string * list (string * list column))) :
  NoDup entries.*1 →
  compare_all (metadata_map_of entries)
  = (rs ← mapM (λ p, _compare_tables p.1.1 p.1.2 p.2.1 p.2.2) (pairs entries);
     Ok (concat rs))
  ∧ (λ p, (Some p.1, Some p.2)) <$> pairs entries
    = (λ ij, (entries !! ij.1, entries !! ij.2)) <$> index_pairs (length entries).
Proof.
  intros Hnd. split; [|apply pairs_index_pairs].
  rewrite metadata_map_of_distinct by done.
  by rewrite compare_all_pairs.
Qed.

Lemma compare_all_pair_order_witness :
  compare_all (metadata_map_of [("a", shop_v1); ("b", shop_v2); ("c", shop_v1)])
  = (r1 ← _compare_tables "a" shop_v1 "b" shop_v2;
     r2 ← _compare_tables "a" shop_v1 "c" shop_v1;
     r3 ← _compare_tables "b" shop_v2 "c" shop_v1;
     Ok (r1 ++ r2 ++ r3)).
Proof.
  destruct (compare_all_pair_order [("a", shop_v1); ("b", shop_v2); ("c", shop_v1)])
    as [Hrun _].
  - refine (bool_decide_unpack _ _). vm_compute. exact I.
  - rewrite Hrun. cbn [pairs fmap list_fmap app mapM fst snd].
    destruct (_compare_tables "a" shop_v1 "b" shop_v2) as [r1|]; [|reflexivity].
    destruct (_compare_tables "a" shop_v1 "c" shop_v1) as [r2|]; [|reflexivity].
    destruct (_compare_tables "b" shop_v2 "c" shop_v1) as [r3|]; [|reflexivity].
    cbn. rewrite app_nil_r. reflexivity.
Defined.

(** ** Repeated labels *)

(** C10. When a label occurs twice, the later snapshot takes the place of the
    earlier one in the label map (at the earlier position), without an
    exception: the map, and with it the comparison, is the one of the input
    without the earlier snapshot, so one database fewer is compared. *)
Theorem metadata_map_of_repeated_label
    (es1 es2 es3 : list (string * list (string * list column)))
    (label : string) (earlier later : list (string * list column)) :
  label ∉ es2.*1 →
  metadata_map_of (es1 ++ (label, earlier) :: es2 ++ (label, later) :: es3)
  = metadata_map_of (es1 ++ (label, later) :: es2 ++ es3)
  ∧ compare_all
      (metadata_map_of (es1 ++ (label, earlier) :: es2 ++ (label, later) :: es3))
    = compare_all (metadata_map_of (es1 ++ (label, later) :: es2 ++ es3))
  ∧ (NoDup (es1 ++ (label, later) :: es2 ++ es3).*1 →
     metadata_map_of (es1 ++ (label, earlier) :: es2 ++ (label, later) :: es3)
     = es1 ++ (label, later) :: es2 ++ es3
     ∧ S (length (metadata_map_of
                    (es1 ++ (label, earlier) :: es2 ++ (label, later) :: es3)))
       = length (es1 ++ (label, earlier) :: es2 ++ (label, later) :: es3)).
Proof.
  intros Hout.
  assert (metadata_map_of (es1 ++ (label, earlier) :: es2 ++ (label, later) :: es3)
          = metadata_map_of (es1 ++ (label, later) :: es2 ++ es3)) as Heq.
  { unfold metadata_map_of.
    rewrite !fold_left_app. cbn [fold_left]. rewrite !fold_left_app. cbn [fold_left].
    f_equal. by apply fold_set_entry_repeated. }
  split_and!; [done|by rewrite Heq|].
  intros Hnd. rewrite Heq, metadata_map_of_distinct by done.
  split; [done|]. rewrite !length_app; simpl. rewrite !length_app; simpl. lia.
Qed.

Lemma metadata_map_of_repeated_label_witness :
  metadata_map_of [("a", shop_v1); ("b", shop_v2); ("a", shop_v2)]
  = [("a", shop_v2); ("b", shop_v2)].
Proof.
  destruct (metadata_map_of_repeated_label [] [("b", shop_v2)] [] "a" shop_v1 shop_v2)
    as (_ & _ & Hmap).
  - refine (bool_decide_unpack _ _). vm_compute. exact I.
  - apply Hmap. refine (bool_decide_unpack _ _). vm_compute. exact I.
Defined.

(** ** Identical snapshots *)

Lemma wf_snapshot_fields_present metadata :
  wf_snapshot metadata → fields_present metadata.
Proof. intros Hwf. eapply Forall_impl; [exact Hwf|]. by intros tc [? _]. Qed.

Lemma _compare_columns_same table columns label1 label2 :
  Forall has_fields columns →
  _compare_columns table columns columns label1 label2 = Ok [].
Proof.
  intros Hf. rewrite _compare_columns_collect.
  destruct (proj2 (cols_dict_is_Ok columns)) as [d Hd].
  { eapply Forall_impl; [done|]. by intros c (? & _). }
  rewrite Hd; simpl.
  assert (names d ∖ names d = ∅) as -> by set_solver.
  assert (names d ∩ names d = names d) as -> by set_solver.
  rewrite sorted_empty, collect_nil; simpl.
  rewrite collect_all_nil; [done|].
  intros name. rewrite elem_of_sorted, (cols_dict_names _ _ _ Hd).
  intros [c Hc]. unfold mismatch_item, dict_getitem.
  rewrite (cols_dict_get _ _ _ Hd), Hc; simpl.
  apply find_col_Some in Hc as [Hin _].
  rewrite Forall_forall in Hf.
  destruct (Hf c Hin) as (_ & [ty ->] & [nu ->]); simpl.
  by rewrite !bool_decide_false by (by intros ?).
Qed.

Lemma _compare_tables_same label1 label2 metadata :
  fields_present metadata →
  _compare_tables label1 metadata label2 metadata = Ok [].
Proof.
  intros Hf. rewrite _compare_tables_collect.
  assert (_get_all_tables metadata ∖ _get_all_tables metadata = ∅) as ->
    by set_solver.
  assert (_get_all_tables metadata ∩ _get_all_tables metadata
          = _get_all_tables metadata) as -> by set_solver.
  rewrite sorted_empty.
  rewrite collect_all_nil; [done|].
  intros table. rewrite elem_of_sorted, elem_of_get_all_tables.
  intros [columns Hc].
  rewrite (common_table_item_Some _ _ _ _ _ _ _ Hc Hc).
  apply _compare_columns_same.
  apply dict_get_elem_of in Hc. unfold fields_present in Hf.
  rewrite Forall_forall in Hf. by apply (Hf (table, columns)).
Qed.

(** C2. When all the labelled snapshots are the same snapshot, the comparison
    returns the empty list; so does the comparison of a snapshot with itself
    under any two labels. *)
Theorem compare_all_identical
    (entries : list (string * list (string * list column)))
    (metadata : list (string * list column)) (label1 label2 : string) :
  fields_present metadata →
  (∀ e, e ∈ entries → e.2 = metadata) →
  compare_all (metadata_map_of entries) = Ok []
  ∧ _compare_tables label1 metadata label2 metadata = Ok [].
Proof.
  intros Hf Hsame. split; [|by apply _compare_tables_same].
  rewrite compare_all_pairs by apply metadata_map_of_NoDup.
  apply collect_all_nil. intros [[l1 m1] [l2 m2]] Hp.
  apply elem_of_pairs in Hp as [H1 H2].
  apply fold_dict_set_elem_of in H1 as [?%elem_of_nil|H1]; [done|].
  apply fold_dict_set_elem_of in H2 as [?%elem_of_nil|H2]; [done|].
  apply Hsame in H1, H2. simpl in H1, H2. subst.
  unfold compare_pair; simpl. by apply _compare_tables_same.
Qed.

Lemma compare_all_identical_witness :
  compare_all (metadata_map_of [("a", shop_v1); ("b", shop_v1); ("c", shop_v1)])
  = Ok []
  ∧ _compare_tables "a" shop_v1 "b" shop_v1 = Ok [].
Proof.
  apply (compare_all_identical _ shop_v1).
  - refine (bool_decide_unpack _ _). vm_compute. exact I.
  - intros e He.
    repeat (apply elem_of_cons in He as [->|He]; [reflexivity|]).
    by apply elem_of_nil in He.
Defined.

(** ** Order of the result *)

Lemma collect_Forall {A B} (f : A → result (list B)) (Q : B → Prop) xs r :
  collect f xs = Ok r →
  (∀ x rx, x ∈ xs → f x = Ok rx → Forall Q rx) →
  Forall Q r.
Proof.
  revert r. induction xs as [|x xs IH]; intros r.
  - rewrite collect_nil. by intros [= <-].
  - rewrite collect_cons.
    destruct (f x) as [rx|] eqn:Hx; simpl; [|done].
    destruct (collect f xs) as [rs|]; simpl; [|done].
    intros [= <-] HQ. apply Forall_app. split.
    + apply (HQ x); [left|done].
    + apply IH; [done|]. intros y ry Hy. apply HQ. by right.
Qed.

Lemma collect_StronglySorted {A B} (f : A → result (list B))
    (R : relation A) (R' : relation B) (key : B → A) xs r :
  collect f xs = Ok r →
  StronglySorted R xs →
  (∀ x rx, f x = Ok rx → StronglySorted R' rx ∧ Forall (λ b, key b = x) rx) →
  (∀ b b', b ∈ r → b' ∈ r → R (key b) (key b') → R' b b') →
  StronglySorted R' r.
Proof.
  intros Hr Hxs Hf HR.
  assert (Forall (λ b, key b ∈ xs) r) as Hkeys.
  { eapply collect_keys; [|done]. intros x rx Hx. by apply Hf. }
  revert r Hr HR Hkeys. induction Hxs as [|x xs Hxs IH Hx]; intros r.
  - rewrite collect_nil. intros [= <-] _ _. constructor.
  - rewrite collect_cons.
    destruct (f x) as [rx|] eqn:Hfx; simpl; [|done].
    destruct (collect f xs) as [rs|] eqn:Hrs; simpl; [|done].
    intros [= <-] HR _.
    destruct (Hf x rx Hfx) as [Hsx Hkx].
    assert (Forall (λ b, key b ∈ xs) rs) as Hks.
    { eapply collect_keys; [|done]. intros y ry Hy. by apply Hf. }
    apply StronglySorted_app_2.
    + intros b b' Hb Hb'. apply HR; [set_solver..|].
      rewrite Forall_forall in Hkx. rewrite Forall_forall in Hks.
      rewrite Forall_forall in Hx.
      rewrite (Hkx b Hb). apply Hx. by apply Hks.
    + done.
    + apply (IH rs); [done| |done].
      intros b b' Hb Hb'. apply HR; set_solver.
Qed.

Lemma fmap_StronglySorted {A B} (g : A → B) (R : relation A) (R' : relation B) xs :
  StronglySorted R xs → (∀ x y, R x y → R' (g x) (g y)) →
  StronglySorted R' (g <$> xs).
Proof.
  intros Hxs Hg. induction Hxs as [|x xs Hxs IH Hx]; [constructor|].
  rewrite fmap_cons. constructor; [done|].
  apply Forall_fmap. eapply Forall_impl; [done|]. intros y Hy. by apply Hg.
Qed.

Lemma _compare_columns_StronglySorted table columns1 columns2 label1 label2 r :
  _compare_columns table columns1 columns2 label1 label2 = Ok r →
  StronglySorted diff_lt r.
Proof.
  intros Hr. apply _compare_columns_inv in Hr
    as (d1 & d2 & a & b & c & _ & _ & Ha & Hb & Hc & ->).
  assert (Forall (λ x, diff_type x = MISSING_COLUMN ∧ table_name x = table) a) as Hka.
  { eapply collect_Forall; [done|].
    intros x rx _ (? & ? & ? & _ & _ & _ & ->)%missing_column_item_inv.
    by repeat constructor. }
  assert (Forall (λ x, diff_type x = EXTRA_COLUMN ∧ table_name x = table) b) as Hkb.
  { eapply collect_Forall; [done|].
    intros x rx _ (? & ? & ? & _ & _ & _ & ->)%extra_column_item_inv.
    by repeat constructor. }
  assert (Forall (λ x, diff_type x = COLUMN_MISMATCH ∧ table_name x = table) c) as Hkc.
  { eapply collect_Forall; [done|].
    intros x rx _ (? & ? & ? & ? & ? & ? & _ & _ & _ & _ & _ & _ & ->)%mismatch_item_inv.
    case_decide; by repeat constructor. }
  rewrite Forall_forall in Hka. rewrite Forall_forall in Hkb.
  rewrite Forall_forall in Hkc.
  assert (∀ K (l : list Difference),
            (∀ x, x ∈ l → diff_type x = K ∧ table_name x = table) →
            ∀ x y, x ∈ l → y ∈ l → str_lt (diff_column x) (diff_column y) →
                   diff_lt x y) as Hsame.
  { intros K l Hl x y [Hx1 Hx2]%Hl [Hy1 Hy2]%Hl Hlt. unfold diff_lt, section_rank, group_rank.
    rewrite Hx1, Hy1, Hx2, Hy2. right. split; [done|]. right. split; [done|].
    right. by split. }
  apply StronglySorted_app_2; [| |apply StronglySorted_app_2].
  - intros x y [Hx1 Hx2]%Hka Hy. unfold diff_lt, section_rank, group_rank.
    rewrite Hx1, Hx2. apply elem_of_app in Hy as [[-> ->]%Hkb|[-> ->]%Hkc];
      right; (split; [done|]); right; (split; [done|]); left; lia.
  - eapply (collect_StronglySorted _ str_lt diff_lt diff_column); [done|..].
    + apply StronglySorted_sorted.
    + intros x rx Hx. split; [|by eapply missing_column_item_key].
      apply missing_column_item_inv in Hx as (? & ? & ? & _ & _ & _ & ->).
      repeat constructor.
    + by apply (Hsame MISSING_COLUMN).
  - intros x y [Hx1 Hx2]%Hkb [Hy1 Hy2]%Hkc. unfold diff_lt, section_rank, group_rank.
    rewrite Hx1, Hx2, Hy1, Hy2.
    right; (split; [done|]); right; (split; [done|]); left; lia.
  - eapply (collect_StronglySorted _ str_lt diff_lt diff_column); [done|..].
    + apply StronglySorted_sorted.
    + intros x rx Hx. split; [|by eapply extra_column_item_key].
      apply extra_column_item_inv in Hx as (? & ? & ? & _ & _ & _ & ->).
      repeat constructor.
    + by apply (Hsame EXTRA_COLUMN).
  - eapply (collect_StronglySorted _ str_lt diff_lt diff_column); [done|..].
    + apply StronglySorted_sorted.
    + intros x rx Hx. split; [|by eapply mismatch_item_key].
      apply mismatch_item_inv in Hx
        as (? & ? & ? & ? & ? & ? & _ & _ & _ & _ & _ & _ & ->).
      case_decide; repeat constructor.
    + by apply (Hsame COLUMN_MISMATCH).
Qed.

Lemma _compare_tables_StronglySorted label1 metadata1 label2 metadata2 r :
  _compare_tables label1 metadata1 label2 metadata2 = Ok r →
  StronglySorted diff_lt r.
Proof.
  intros Hr. destruct (_compare_tables_inv _ _ _ _ _ Hr) as (c & Hc & ->).
  assert (Forall (λ x, section_rank x = 2) c) as Hkc.
  { eapply collect_Forall; [done|]. intros table rt _. unfold common_table_item.
    destruct (dict_getitem metadata1 table) as [c1|]; simpl; [|done].
    destruct (dict_getitem metadata2 table) as [c2|]; simpl; [|done].
    intros Hrt. apply _compare_columns_table in Hrt.
    eapply Forall_impl; [done|]. intros x [_ Hk]. unfold section_rank.
    by destruct Hk as [->|[->| ->]]. }
  rewrite Forall_forall in Hkc.
  apply StronglySorted_app_2; [| |apply StronglySorted_app_2].
  - intros x y (t & -> & _)%list_elem_of_fmap Hy. left.
    apply elem_of_app in Hy as [(t' & -> & _)%list_elem_of_fmap|Hy].
    + unfold section_rank; simpl. lia.
    + rewrite (Hkc y Hy). unfold section_rank; simpl. lia.
  - apply (fmap_StronglySorted _ str_lt); [apply StronglySorted_sorted|].
    intros t t' Hlt. right. split; [done|]. by left.
  - intros x y (t & -> & _)%list_elem_of_fmap Hy. left.
    rewrite (Hkc y Hy). unfold section_rank; simpl. lia.
  - apply (fmap_StronglySorted _ str_lt); [apply StronglySorted_sorted|].
    intros t t' Hlt. right. split; [done|]. by left.
  - eapply (collect_StronglySorted _ str_lt diff_lt table_name); [done|..].
    + apply StronglySorted_sorted.
    + intros table rt Hrt. split; [|by eapply common_table_item_key].
      unfold common_table_item in Hrt.
      destruct (dict_getitem metadata1 table) as [c1|]; simpl in Hrt; [|done].
      destruct (dict_getitem metadata2 table) as [c2|]; simpl in Hrt; [|done].
      by eapply _compare_columns_StronglySorted.
    + intros x y Hx Hy Hlt. right. split; [|by left].
      by rewrite (Hkc x Hx), (Hkc y Hy).
Qed.

(** The result does not depend on the key order of the two dictionaries. *)
Lemma dict_get_Permutation {V} (d d' : pydict V) k :
  NoDup (dict_keys d) → d' ≡ₚ d → dict_get d' k = dict_get d k.
Proof.
  intros Hnd Hp.
  assert (NoDup (dict_keys d')) as Hnd'.
  { unfold dict_keys in *. by rewrite Hp. }
  destruct (dict_get d k) as [v|] eqn:Hk.
  - apply dict_get_NoDup; [done|]. rewrite Hp. by apply dict_get_elem_of.
  - destruct (dict_get d' k) as [v'|] eqn:Hk'; [|done].
    apply dict_get_elem_of in Hk'. rewrite Hp in Hk'.
    apply (dict_get_NoDup d k v' Hnd) in Hk'. congruence.
Qed.

Lemma _compare_tables_Permutation label1 metadata1 metadata1' label2 metadata2 metadata2' :
  NoDup (dict_keys metadata1) → NoDup (dict_keys metadata2) →
  metadata1' ≡ₚ metadata1 → metadata2' ≡ₚ metadata2 →
  _compare_tables label1 metadata1' label2 metadata2'
  = _compare_tables label1 metadata1 label2 metadata2.
Proof.
  intros Hnd1 Hnd2 Hp1 Hp2. rewrite !_compare_tables_collect.
  assert (_get_all_tables metadata1' = _get_all_tables metadata1) as ->.
  { unfold _get_all_tables, dict_keys. by rewrite Hp1. }
  assert (_get_all_tables metadata2' = _get_all_tables metadata2) as ->.
  { unfold _get_all_tables, dict_keys. by rewrite Hp2. }
  rewrite (collect_ext (common_table_item label1 metadata1' label2 metadata2')
             (common_table_item label1 metadata1 label2 metadata2)); [done|].
  intros table _. unfold common_table_item, dict_getitem.
  by rewrite (dict_get_Permutation metadata1 metadata1'),
    (dict_get_Permutation metadata2 metadata2').
Qed.

(** C4. The entries of a comparison come in this order: the [MISSING_TABLE]
    entries by ascending table name, then the [EXTRA_TABLE] entries by
    ascending table name, then the tables of both by ascending table name,
    and within such a table the [MISSING_COLUMN] entries, then the
    [EXTRA_COLUMN] entries, then the [COLUMN_MISMATCH] entries, each group by
    ascending column name.  The result is the same for every key order of the
    two dictionaries, and for well-formed snapshots there is a result. *)
Theorem compare_tables_order label1 metadata1 label2 metadata2 :
  (wf_snapshot metadata1 → wf_snapshot metadata2 →
   is_Ok (_compare_tables label1 metadata1 label2 metadata2))
  ∧ (∀ diffs, _compare_tables label1 metadata1 label2 metadata2 = Ok diffs →
       StronglySorted diff_lt diffs)
  ∧ (∀ metadata1' metadata2',
       NoDup (dict_keys metadata1) → NoDup (dict_keys metadata2) →
       metadata1' ≡ₚ metadata1 → metadata2' ≡ₚ metadata2 →
       _compare_tables label1 metadata1' label2 metadata2'
       = _compare_tables label1 metadata1 label2 metadata2).
Proof.
  split_and!.
  - apply _compare_tables_wf_Ok.
  - apply _compare_tables_StronglySorted.
  - intros. by apply _compare_tables_Permutation.
Qed.

Lemma compare_tables_order_witness :
  ∃ diffs,
    _compare_tables "db1" shop_v1 "db2" shop_v2 = Ok diffs
    ∧ StronglySorted diff_lt diffs
    ∧ _compare_tables "db1" (reverse shop_v1) "db2" (reverse shop_v2) = Ok diffs.
Proof.
  destruct (compare_tables_order "db1" shop_v1 "db2" shop_v2)
    as (Hok & Hsorted & Hperm).
  destruct (Hok wf_shop_v1 wf_shop_v2) as [diffs Hr].
  exists diffs. split; [exact Hr|]. split; [exact (Hsorted diffs Hr)|].
  rewrite <- Hr. apply Hperm.
  - refine (bool_decide_unpack _ _). vm_compute. exact I.
  - refine (bool_decide_unpack _ _). vm_compute. exact I.
  - apply reverse_Permutation.
  - apply reverse_Permutation.
Defined.

(** ** Swapping the two sides *)

Lemma _compare_columns_same_names table columns1 columns2 label1 label2 d1 d2 :
  cols_dict columns1 = Ok d1 → cols_dict columns2 = Ok d2 →
  (∀ name, is_Some (find_col name columns1) ↔ is_Some (find_col name columns2)) →
  _compare_columns table columns1 columns2 label1 label2
  = collect (mismatch_item table label1 label2 d1 d2) (sorted (names d1)).
Proof.
  intros Hd1 Hd2 Hnames. rewrite _compare_columns_collect, Hd1, Hd2; simpl.
  assert (names d2 = names d1) as ->.
  { apply set_eq. intros name.
    rewrite (cols_dict_names _ _ _ Hd1), (cols_dict_names _ _ _ Hd2).
    by rewrite Hnames. }
  assert (names d1 ∖ names d1 = ∅) as -> by set_solver.
  assert (names d1 ∩ names d1 = names d1) as -> by set_solver.
  rewrite sorted_empty, collect_nil; simpl.
  by destruct (collect _ _).
Qed.

Lemma mismatch_item_agree table label1 label2 columns1 columns2 d1 d2 name :
  cols_dict columns1 = Ok d1 → cols_dict columns2 = Ok d2 →
  Forall has_fields columns1 →
  is_Some (find_col name columns1) →
  find_col name columns1 = find_col name columns2 →
  mismatch_item table label1 label2 d1 d2 name = Ok [].
Proof.
  intros Hd1 Hd2 Hf [c Hc] Heq. unfold mismatch_item, dict_getitem.
  rewrite (cols_dict_get _ _ _ Hd1), (cols_dict_get _ _ _ Hd2), <- Heq, Hc; simpl.
  apply find_col_Some in Hc as [Hin _]. rewrite Forall_forall in Hf.
  destruct (Hf c Hin) as (_ & [ty ->] & [nu ->]); simpl.
  by rewrite !bool_decide_false by (by intros ?).
Qed.

Lemma _compare_columns_agree table columns1 columns2 label1 label2 :
  Forall has_fields columns1 → Forall has_fields columns2 →
  (∀ name, find_col name columns1 = find_col name columns2) →
  _compare_columns table columns1 columns2 label1 label2 = Ok [].
Proof.
  intros Hf1 Hf2 Heq.
  destruct (proj2 (cols_dict_is_Ok columns1)) as [d1 Hd1].
  { eapply Forall_impl; [done|]. by intros c (? & _). }
  destruct (proj2 (cols_dict_is_Ok columns2)) as [d2 Hd2].
  { eapply Forall_impl; [done|]. by intros c (? & _). }
  rewrite (_compare_columns_same_names _ _ _ _ _ d1 d2) by (done || by intros; rewrite Heq).
  apply collect_all_nil. intros name.
  rewrite elem_of_sorted, (cols_dict_names _ _ _ Hd1). intros Hsome.
  by eapply mismatch_item_agree.
Qed.

Lemma _compare_tables_single_type_mismatch label1 metadata1 label2 metadata2
    table name ty1 ty2 nu :
  fields_present metadata1 → fields_present metadata2 →
  (∀ t, is_Some (dict_get metadata1 t) ↔ is_Some (dict_get metadata2 t)) →
  (∀ t c, (t, c) ≠ (table, name) →
          lookup_column metadata1 t c = lookup_column metadata2 t c) →
  lookup_column metadata1 table name = Some (Column (Some name) (Some ty1) (Some nu)) →
  lookup_column metadata2 table name = Some (Column (Some name) (Some ty2) (Some nu)) →
  ty1 ≠ ty2 →
  _compare_tables label1 metadata1 label2 metadata2
  = Ok [mkDifference COLUMN_MISMATCH table name
          ("data_type: " +:+ label1 +:+ "=" +:+ str ty1 +:+ " vs "
             +:+ label2 +:+ "=" +:+ str ty2)
          label1 label2].
Proof.
  intros Hf1 Hf2 Htables Hothers H1 H2 Hty.
  unfold lookup_column in H1, H2.
  destruct (dict_get metadata1 table) as [columns1|] eqn:Ht1; simpl in H1; [|done].
  destruct (dict_get metadata2 table) as [columns2|] eqn:Ht2; simpl in H2; [|done].
  assert (∀ t c, dict_get metadata1 t = Some c → Forall has_fields c) as Hc1.
  { intros t c Hc%dict_get_elem_of. unfold fields_present in Hf1.
    rewrite Forall_forall in Hf1. by apply (Hf1 (t, c)). }
  assert (∀ t c, dict_get metadata2 t = Some c → Forall has_fields c) as Hc2.
  { intros t c Hc%dict_get_elem_of. unfold fields_present in Hf2.
    rewrite Forall_forall in Hf2. by apply (Hf2 (t, c)). }
  rewrite _compare_tables_collect.
  assert (_get_all_tables metadata2 = _get_all_tables metadata1) as ->.
  { apply set_eq. intros t. by rewrite !elem_of_get_all_tables, Htables. }
  assert (_get_all_tables metadata1 ∖ _get_all_tables metadata1 = ∅) as ->
    by set_solver.
  assert (_get_all_tables metadata1 ∩ _get_all_tables metadata1
          = _get_all_tables metadata1) as -> by set_solver.
  rewrite sorted_empty. simpl.
  rewrite (collect_single _ _ table
             [mkDifference COLUMN_MISMATCH table name
                ("data_type: " +:+ label1 +:+ "=" +:+ str ty1 +:+ " vs "
                   +:+ label2 +:+ "=" +:+ str ty2) label1 label2]); [done|..].
  - apply NoDup_sorted.
  - rewrite elem_of_sorted, elem_of_get_all_tables, Ht1. by eexists.
  - rewrite (common_table_item_Some _ _ _ _ _ _ _ Ht1 Ht2).
    destruct (proj2 (cols_dict_is_Ok columns1)) as [d1 Hd1].
    { eapply Forall_impl; [by eapply Hc1|]. by intros c (? & _). }
    destruct (proj2 (cols_dict_is_Ok columns2)) as [d2 Hd2].
    { eapply Forall_impl; [by eapply Hc2|]. by intros c (? & _). }
    assert (∀ c, c ≠ name → find_col c columns1 = find_col c columns2) as Hcols.
    { intros c Hne. specialize (Hothers table c). unfold lookup_column in Hothers.
      rewrite Ht1, Ht2 in Hothers. apply Hothers. by intros [= ?]. }
    rewrite (_compare_columns_same_names _ _ _ _ _ d1 d2); [|done|done|].
    2:{ intros c. destruct (decide (c = name)) as [->|Hne].
        - rewrite H1, H2. split; by eexists.
        - by rewrite Hcols. }
    apply (collect_single _ _ name).
    + apply NoDup_sorted.
    + rewrite elem_of_sorted, (cols_dict_names _ _ _ Hd1), H1. by eexists.
    + unfold mismatch_item, dict_getitem.
      rewrite (cols_dict_get _ _ _ Hd1), (cols_dict_get _ _ _ Hd2), H1, H2; simpl.
      rewrite bool_decide_true by done. simpl.
      unfold mismatch_detail. rewrite bool_decide_true by done.
      by rewrite bool_decide_false by (by intros ?).
    + intros c. rewrite elem_of_sorted, (cols_dict_names _ _ _ Hd1).
      intros Hsome Hne. eapply mismatch_item_agree; [done..|by eapply Hc1|done|].
      by apply Hcols.
  - intros t. rewrite elem_of_sorted, elem_of_get_all_tables.
    intros [c1 Hg1] Hne.
    destruct (proj1 (Htables t)) as [c2 Hg2]; [by eexists|].
    rewrite (common_table_item_Some _ _ _ _ _ _ _ Hg1 Hg2).
    apply _compare_columns_agree; [by eapply Hc1|by eapply Hc2|].
    intros c. specialize (Hothers t c). unfold lookup_column in Hothers.
    rewrite Hg1, Hg2 in Hothers. apply Hothers. by intros [= ? ?].
Qed.

(** C8. When two snapshots differ in the type of a single column of both and
    in nothing else, either order of comparison reports exactly one entry, a
    [COLUMN_MISMATCH] for that column; the two details are mirror images:
    labels and types change sides. *)
Theorem compare_tables_swap label1 metadata1 label2 metadata2 table name ty1 ty2 nu :
  fields_present metadata1 → fields_present metadata2 →
  (∀ t, is_Some (dict_get metadata1 t) ↔ is_Some (dict_get metadata2 t)) →
  (∀ t c, (t, c) ≠ (table, name) →
          lookup_column metadata1 t c = lookup_column metadata2 t c) →
  lookup_column metadata1 table name = Some (Column (Some name) (Some ty1) (Some nu)) →
  lookup_column metadata2 table name = Some (Column (Some name) (Some ty2) (Some nu)) →
  ty1 ≠ ty2 →
  _compare_tables label1 metadata1 label2 metadata2
  = Ok [mkDifference COLUMN_MISMATCH table name
          ("data_type: " +:+ label1 +:+ "=" +:+ str ty1 +:+ " vs "
             +:+ label2 +:+ "=" +:+ str ty2)
          label1 label2]
  ∧ _compare_tables label2 metadata2 label1 metadata1
    = Ok [mkDifference COLUMN_MISMATCH table name
            ("data_type: " +:+ label2 +:+ "=" +:+ str ty2 +:+ " vs "
               +:+ label1 +:+ "=" +:+ str ty1)
            label2 label1].
Proof.
  intros Hf1 Hf2 Htables Hothers H1 H2 Hty. split.
  - by eapply _compare_tables_single_type_mismatch.
  - eapply _compare_tables_single_type_mismatch; [done|done| | |done|done|done].
    + intros t. by rewrite Htables.
    + intros t c Hne. symmetry. by apply Hothers.
Qed.

Lemma compare_tables_swap_witness :
  _compare_tables "old" blog_v1 "new" blog_v2
  = Ok [mkDifference COLUMN_MISMATCH "posts" "id"
          "data_type: old=int vs new=bigint" "old" "new"]
  ∧ _compare_tables "new" blog_v2 "old" blog_v1
    = Ok [mkDifference COLUMN_MISMATCH "posts" "id"
            "data_type: new=bigint vs old=int" "new" "old"].
Proof.
  apply (compare_tables_swap "old" blog_v1 "new" blog_v2 "posts" "id"
           (VStr "int") (VStr "bigint") (VStr "NO")).
  - refine (bool_decide_unpack _ _). vm_compute. exact I.
  - refine (bool_decide_unpack _ _). vm_compute. exact I.
  - intros t. simpl. repeat case_decide; simplify_eq; done.
  - intros t c Hne. unfold lookup_column. simpl.
    repeat (case_decide; simplify_eq; simpl; try done).
  - reflexivity.
  - reflexivity.
  - discriminate.
Defined.

(** ** The cache of the loader *)

Section Cache.
Variable json_load : nat → string → option (list (string * list column)).

Lemma _load_metadata_cached filepath w metadata :
  dict_get (metadata_cache w) filepath = Some metadata →
  _load_metadata json_load filepath w = (Ok metadata, w).
Proof. intros Hc. unfold _load_metadata. by rewrite Hc. Qed.

Lemma _load_metadata_Ok filepath w metadata w' :
  _load_metadata json_load filepath w = (Ok metadata, w') →
  dict_get (metadata_cache w') filepath = Some metadata.
Proof.
  unfold _load_metadata.
  destruct (dict_get (metadata_cache w) filepath) as [m|] eqn:Hc.
  - by intros [= <- <-].
  - destruct (json_load _ filepath) as [m|]; [|done].
    intros [= <- <-]. simpl. rewrite dict_get_set. by rewrite decide_True.
Qed.

Lemma _load_metadata_keeps filepath w other metadata :
  dict_get (metadata_cache w) filepath = Some metadata →
  dict_get (metadata_cache (_load_metadata json_load other w).2) filepath
  = Some metadata.
Proof.
  intros Hc. unfold _load_metadata.
  destruct (dict_get (metadata_cache w) other) as [m|] eqn:Ho; [done|].
  destruct (json_load _ other) as [m|]; simpl; [|done].
  rewrite dict_get_set. rewrite decide_False; [done|]. intros ->. congruence.
Qed.

Lemma load_each_keeps paths filepath w metadata :
  dict_get (metadata_cache w) filepath = Some metadata →
  dict_get (metadata_cache (load_each json_load paths w)) filepath = Some metadata.
Proof.
  revert w. induction paths as [|p paths IH]; intros w Hc; simpl; [done|].
  apply IH. by apply _load_metadata_keeps.
Qed.

Lemma _load_metadata_inv filepath w :
  cache_inv w →
  NoDup (reads (_load_metadata json_load filepath w).2)
  ∧ (is_Ok (_load_metadata json_load filepath w).1 →
     cache_inv (_load_metadata json_load filepath w).2).
Proof.
  intros [Hnd Hin]. unfold _load_metadata.
  destruct (dict_get (metadata_cache w) filepath) as [m|] eqn:Hc; simpl.
  { split; [done|]. by intros _. }
  assert (filepath ∉ reads w) as Hfresh.
  { intros Hr%Hin. apply dict_get_is_Some in Hr as [? ?]. congruence. }
  assert (NoDup (reads w ++ [filepath])) as Hnd'.
  { apply NoDup_app. split_and!; [done| |apply NoDup_singleton].
    intros x Hx ->%list_elem_of_singleton. done. }
  destruct (json_load _ filepath) as [m|]; simpl.
  - split; [done|]. intros _. split; [done|]. simpl.
    intros p [Hp|Hp%list_elem_of_singleton]%elem_of_app;
      apply elem_of_dict_keys_set; [right; by apply Hin|by left].
  - split; [done|]. by intros [? ?].
Qed.

Lemma load_all_inv metadata_files metadata_map w :
  cache_inv w →
  NoDup (reads (load_all json_load metadata_files metadata_map w).2).
Proof.
  revert metadata_map w.
  induction metadata_files as [|[[label filepath] cfg] rest IH];
    intros metadata_map w Hw; simpl; [by destruct Hw|].
  destruct (_load_metadata_inv filepath w Hw) as [Hnd Hinv].
  destruct (_load_metadata json_load filepath w) as [[m|e] w']; simpl in *.
  - apply IH. apply Hinv. by eexists.
  - done.
Qed.

Lemma generate_diff_report_reads metadata_files output_folder timestamp w :
  reads (generate_diff_report json_load metadata_files output_folder timestamp w).2
  = reads (load_all json_load metadata_files []
             (World (metadata_cache w) (reads w) (dirs w ++ [output_folder])
                (files w))).2.
Proof.
  unfold generate_diff_report.
  destruct (load_all _ _ _ _) as [[mm|e] w']; simpl; [|done].
  destruct (compare_all mm) as [[|d ds]|e]; done.
Qed.

(** C7. In a run on a fresh object no source is read twice, however many
    entries name it.  A load of a source that is not in the cache reads it
    and stores the snapshot in the cache; once a load of a source has
    returned a snapshot, every later load of that source returns this same
    snapshot and leaves the world, in particular the list of reads, as it
    is, whatever the source holds by then. *)
Theorem load_metadata_once :
  (∀ metadata_files output_folder timestamp,
     NoDup (reads (generate_diff_report json_load metadata_files
                     output_folder timestamp init_world).2))
  ∧ (∀ filepath w metadata,
       dict_get (metadata_cache w) filepath = None →
       json_load (length (reads w)) filepath = Some metadata →
       _load_metadata json_load filepath w
       = (Ok metadata,
          World (dict_set filepath metadata (metadata_cache w))
                (reads w ++ [filepath]) (dirs w) (files w)))
  ∧ (∀ filepath w metadata w1 later,
       _load_metadata json_load filepath w = (Ok metadata, w1) →
       _load_metadata json_load filepath (load_each json_load later w1)
       = (Ok metadata, load_each json_load later w1)).
Proof.
  split_and!.
  - intros. rewrite generate_diff_report_reads. apply load_all_inv.
    split; simpl; [constructor|]. by intros p ?%elem_of_nil.
  - intros filepath w metadata Hc Hl. unfold _load_metadata. by rewrite Hc, Hl.
  - intros filepath w metadata w1 later Hload.
    apply _load_metadata_cached, load_each_keeps.
    by eapply _load_metadata_Ok.
Qed.
End Cache.

Lemma load_metadata_once_witness :
  _load_metadata changing_source "a.json" init_world
  = (Ok shop_v1, World [("a.json", shop_v1)] ["a.json"] [] [])
  ∧ _load_metadata changing_source "a.json"
      (load_each changing_source ["b.json"; "a.json"]
         (World [("a.json", shop_v1)] ["a.json"] [] []))
    = (Ok shop_v1, World [("a.json", shop_v1); ("b.json", shop_v2)]
                     ["a.json"; "b.json"] [] []).
Proof.
  destruct (load_metadata_once changing_source) as (_ & Hfirst & Hagain).
  split.
  - apply (Hfirst "a.json" init_world shop_v1); reflexivity.
  - apply (Hagain "a.json" init_world shop_v1
             (World [("a.json", shop_v1)] ["a.json"] [] []) ["b.json"; "a.json"]).
    apply (Hfirst "a.json" init_world shop_v1); reflexivity.
Defined.

(** ** Column descriptors that lack a field *)

Lemma raises_KeyError_bind {A B} (m : result A) (f : A → result B) :
  raises_KeyError m → (∀ a, raises_KeyError (f a)) → raises_KeyError (m ≫= f).
Proof. destruct m as [a|e]; simpl; [|done]. intros _ Hf. apply Hf. Qed.

Lemma raises_KeyError_getitem {A} key (field : option A) :
  raises_KeyError (getitem key field).
Proof. destruct field; simpl; [done|by eexists]. Qed.

Lemma raises_KeyError_dict_getitem {V} (d : pydict V) k :
  raises_KeyError (dict_getitem d k).
Proof. unfold dict_getitem. destruct (dict_get d k); simpl; [done|by eexists]. Qed.

Lemma raises_KeyError_for_each {A S} (xs : list A) (body : A → S → result S) s :
  (∀ x s, raises_KeyError (body x s)) → raises_KeyError (for_each xs body s).
Proof.
  intros Hbody. revert s. induction xs as [|x xs IH]; intros s; simpl; [done|].
  apply raises_KeyError_bind; [apply Hbody|apply IH].
Qed.

Lemma raises_KeyError_collect {A B} (f : A → result (list B)) xs :
  (∀ x, raises_KeyError (f x)) → raises_KeyError (collect f xs).
Proof.
  intros Hf. induction xs as [|x xs IH]; [done|].
  rewrite collect_cons. apply raises_KeyError_bind; [apply Hf|]. intros r.
  apply raises_KeyError_bind; [apply IH|done].
Qed.

Local Ltac key_error :=
  repeat first
    [ apply raises_KeyError_getitem
    | apply raises_KeyError_dict_getitem
    | apply raises_KeyError_collect; intros ?
    | apply raises_KeyError_for_each; intros ? ?
    | apply raises_KeyError_bind; [|intros ?]
    | match goal with
      | |- raises_KeyError (if ?b then _ else _) => destruct b
      end
    | exact I ].

Lemma raises_KeyError_compare_columns table columns1 columns2 label1 label2 :
  raises_KeyError (_compare_columns table columns1 columns2 label1 label2).
Proof.
  rewrite _compare_columns_collect.
  unfold cols_dict, missing_column_item, extra_column_item, mismatch_item.
  key_error.
Qed.

Lemma raises_KeyError_compare_tables label1 metadata1 label2 metadata2 :
  raises_KeyError (_compare_tables label1 metadata1 label2 metadata2).
Proof.
  rewrite _compare_tables_collect.
  apply raises_KeyError_bind; [|done].
  apply raises_KeyError_collect. intros table. unfold common_table_item.
  apply raises_KeyError_bind; [apply raises_KeyError_dict_getitem|]. intros columns1.
  apply raises_KeyError_bind; [apply raises_KeyError_dict_getitem|]. intros columns2.
  apply raises_KeyError_compare_columns.
Qed.

Lemma raises_KeyError_compare_all metadata_map :
  NoDup (dict_keys metadata_map) → raises_KeyError (compare_all metadata_map).
Proof.
  intros Hnd. rewrite compare_all_pairs by done.
  apply raises_KeyError_collect. intros p. apply raises_KeyError_compare_tables.
Qed.

(** A descriptor without all three fields, in a list with unique names, makes
    [_compare_columns] raise, on whichever side it is. *)
Lemma _compare_columns_malformed table columns1 columns2 label1 label2 col :
  (col ∈ columns1 ∧ NoDup (column_name <$> columns1))
  ∨ (col ∈ columns2 ∧ NoDup (column_name <$> columns2)) →
  ¬ has_fields col →
  ¬ is_Ok (_compare_columns table columns1 columns2 label1 label2).
Proof.
  intros Hcol Hbad Hok. apply _compare_columns_is_Ok in Hok as (Hn1 & Hn2 & Hf).
  apply Hbad.
  rewrite Forall_forall in Hn1. rewrite Forall_forall in Hn2.
  destruct Hcol as [[Hin Hnd]|[Hin Hnd]].
  - destruct (Hn1 col Hin) as [name Hname].
    destruct (Hf name col) as [? ?]; [left; by apply find_col_NoDup|].
    split_and!; [by eexists|done..].
  - destruct (Hn2 col Hin) as [name Hname].
    destruct (Hf name col) as [? ?]; [right; by apply find_col_NoDup|].
    split_and!; [by eexists|done..].
Qed.

Section Malformed.
Variable json_load : nat → string → option (list (string * list column)).

Lemma load_all_keeps_files metadata_files metadata_map w :
  files (load_all json_load metadata_files metadata_map w).2 = files w.
Proof.
  revert metadata_map w.
  induction metadata_files as [|[[label filepath] cfg] rest IH];
    intros metadata_map w; simpl; [done|].
  assert (files (_load_metadata json_load filepath w).2 = files w) as Hf.
  { unfold _load_metadata. destruct (dict_get _ _); [done|].
    by destruct (json_load _ _). }
  destruct (_load_metadata json_load filepath w) as [[m|e] w']; simpl in *.
  - by rewrite IH.
  - done.
Qed.

Lemma load_all_NoDup metadata_files metadata_map w :
  NoDup (dict_keys metadata_map) →
  ∀ mm, (load_all json_load metadata_files metadata_map w).1 = Ok mm →
        NoDup (dict_keys mm).
Proof.
  revert metadata_map w.
  induction metadata_files as [|[[label filepath] cfg] rest IH];
    intros metadata_map w Hnd mm; simpl.
  - by intros [= <-].
  - destruct (_load_metadata json_load filepath w) as [[m|e] w']; simpl; [|done].
    apply IH. by apply NoDup_dict_set.
Qed.

(** C6, as the code has it. When two compared snapshots share a table and
    a column descriptor of that table, on either side, lacks a field (the
    column names of its list being unique), the run raises a [KeyError]
    and writes no report file. *)
Theorem malformed_common_table_aborts metadata_files output_folder timestamp w
    metadata_map w1 label1 metadata1 label2 metadata2 table columns1 columns2 col :
  load_all json_load metadata_files []
    (World (metadata_cache w) (reads w) (dirs w ++ [output_folder]) (files w))
  = (Ok metadata_map, w1) →
  ((label1, metadata1), (label2, metadata2)) ∈ pairs metadata_map →
  dict_get metadata1 table = Some columns1 →
  dict_get metadata2 table = Some columns2 →
  (col ∈ columns1 ∧ NoDup (column_name <$> columns1))
  ∨ (col ∈ columns2 ∧ NoDup (column_name <$> columns2)) →
  ¬ has_fields col →
  ∃ key,
    generate_diff_report json_load metadata_files output_folder timestamp w
    = (Raise (KeyError key), w1)
    ∧ files w1 = files w.
Proof.
  intros Hload Hpair H1 H2 Hcol Hbad.
  assert (NoDup (dict_keys metadata_map)) as Hnd.
  { eapply (load_all_NoDup metadata_files []); [constructor|].
    by rewrite Hload. }
  assert (¬ is_Ok (compare_all metadata_map)) as Hraise.
  { rewrite compare_all_pairs by done.
    eapply collect_Raise; [exact Hpair|].
    unfold compare_pair; simpl. intros Hok.
    eapply _compare_columns_malformed; [done..|].
    by eapply _compare_tables_is_Ok. }
  pose proof (raises_KeyError_compare_all metadata_map Hnd) as Hkey.
  destruct (compare_all metadata_map) as [ds|e] eqn:Hcmp.
  { destruct Hraise. by eexists. }
  destruct Hkey as [key ->]. exists key. split.
  - unfold generate_diff_report. by rewrite Hload, Hcmp.
  - pose proof (load_all_keeps_files metadata_files []
      (World (metadata_cache w) (reads w) (dirs w ++ [output_folder]) (files w)))
      as Hfiles.
    by rewrite Hload in Hfiles.
Qed.
End Malformed.

Lemma malformed_common_table_aborts_witness :
  ∃ key w1,
    generate_diff_report (two_sources true)
      [("a", "a.json", cfg); ("b", "b.json", cfg)] "out" "t0" init_world
    = (Raise (KeyError key), w1)
    ∧ files w1 = [].
Proof.
  destruct (malformed_common_table_aborts (two_sources true)
              [("a", "a.json", cfg); ("b", "b.json", cfg)] "out" "t0" init_world
              [("a", untyped_orders);
               ("b", [("orders", [col "id" "int" "NO"]); ("users", [col "id" "int" "NO"])])]
              (World [("a.json", untyped_orders);
                      ("b.json", [("orders", [col "id" "int" "NO"]);
                                  ("users", [col "id" "int" "NO"])])]
                 ["a.json"; "b.json"] ["out"] [])
              "a" untyped_orders
              "b" [("orders", [col "id" "int" "NO"]); ("users", [col "id" "int" "NO"])]
              "orders" [Column (Some "id") None None] [col "id" "int" "NO"]
              (Column (Some "id") None None))
    as (key & Hrun & Hfiles).
  - reflexivity.
  - left.
  - reflexivity.
  - reflexivity.
  - left. split; [left|]. repeat constructor. by intros ?%elem_of_nil.
  - intros (_ & [? ?] & _). discriminate.
  - exists key. eexists. split; [exact Hrun|exact Hfiles].
Defined.

(** C6 as stated fails: the malformed descriptor of [orders] is not looked at
    when [orders] is in one snapshot only; the run returns and writes the
    report. *)
Lemma malformed_one_sided_table_reported :
  ¬ fields_present untyped_orders
  ∧ generate_diff_report (two_sources false)
      [("a", "a.json", cfg); ("b", "b.json", cfg)] "out" "t0" init_world
    = (Ok (),
       World [("a.json", untyped_orders); ("b.json", [("users", [col "id" "int" "NO"])])]
         ["a.json"; "b.json"] ["out"]
         [("out/t0-schema_differences.csv",
           [["Diff Type"; "Table Name"; "Column Name"; "Database 1"; "Database 2"; "Detail"];
            ["MISSING_TABLE"; "orders"; ""; "a"; "b"; "Table exists in a but not in b"]])]).
Proof.
  split.
  - intros Hf. apply (bool_decide_pack _) in Hf. vm_compute in Hf. exact Hf.
  - vm_compute. reflexivity.
Qed.

(** * Further properties of the code *)

(** ** Nothing is reported without cause *)

Lemma collect_elem_of {A B} (f : A → result (list B)) xs r b :
  collect f xs = Ok r → b ∈ r → ∃ x rx, x ∈ xs ∧ f x = Ok rx ∧ b ∈ rx.
Proof.
  revert r. induction xs as [|x xs IH]; intros r.
  - rewrite collect_nil. intros [= <-] ?%elem_of_nil. done.
  - rewrite collect_cons.
    destruct (f x) as [rx|] eqn:Hx; simpl; [|done].
    destruct (collect f xs) as [rs|]; simpl; [|done].
    intros [= <-] [Hb|Hb]%elem_of_app.
    + exists x, rx. split; [left|done].
    + destruct (IH rs eq_refl Hb) as (y & ry & Hy & Hfy & Hby).
      exists y, ry. split; [by right|done].
Qed.

Lemma _compare_columns_justified label1 metadata1 label2 metadata2
    table columns1 columns2 r :
  dict_get metadata1 table = Some columns1 →
  dict_get metadata2 table = Some columns2 →
  _compare_columns table columns1 columns2 label1 label2 = Ok r →
  Forall (justified label1 metadata1 label2 metadata2) r.
Proof.
  intros Ht1 Ht2 Hr. apply _compare_columns_inv in Hr
    as (d1 & d2 & a & b & c & Hd1 & Hd2 & Ha & Hb & Hc & ->).
  rewrite !Forall_app. split_and!.
  - eapply collect_Forall; [done|]. intros name rx Hin Hrx.
    apply missing_column_item_inv in Hrx as (col & ty & nu & Hg & _ & _ & ->).
    apply elem_of_sorted, elem_of_difference in Hin as [_ Hout].
    rewrite (cols_dict_names _ _ _ Hd2) in Hout.
    rewrite (cols_dict_get _ _ _ Hd1) in Hg.
    constructor; [|constructor]. unfold justified, lookup_column; simpl.
    rewrite Ht1, Ht2; simpl. rewrite Hg. split_and!; [done|done|by eexists|by eexists|].
    by apply eq_None_not_Some.
  - eapply collect_Forall; [done|]. intros name rx Hin Hrx.
    apply extra_column_item_inv in Hrx as (col & ty & nu & Hg & _ & _ & ->).
    apply elem_of_sorted, elem_of_difference in Hin as [_ Hout].
    rewrite (cols_dict_names _ _ _ Hd1) in Hout.
    rewrite (cols_dict_get _ _ _ Hd2) in Hg.
    constructor; [|constructor]. unfold justified, lookup_column; simpl.
    rewrite Ht1, Ht2; simpl. rewrite Hg. split_and!; [done|done|by eexists| |by eexists].
    by apply eq_None_not_Some.
  - eapply collect_Forall; [done|]. intros name rx Hin Hrx.
    apply mismatch_item_inv in Hrx
      as (col1 & col2 & ty1 & ty2 & nu1 & nu2 & Hg1 & Hg2 & Hty1 & Hty2 & Hnu1 & Hnu2 & ->).
    rewrite (cols_dict_get _ _ _ Hd1) in Hg1.
    rewrite (cols_dict_get _ _ _ Hd2) in Hg2.
    case_decide as Hsame; [constructor|].
    constructor; [|constructor]. unfold justified, lookup_column; simpl.
    rewrite Ht1, Ht2; simpl. split_and!; [done|done|].
    exists col1, col2. split_and!; [done|done|].
    rewrite Hty1, Hty2, Hnu1, Hnu2.
    destruct (decide (ty1 = ty2)) as [->|]; [|left; congruence].
    destruct (decide (nu1 = nu2)) as [->|]; [|right; congruence].
    by destruct Hsame.
Qed.

Lemma compare_tables_justified_aux label1 metadata1 label2 metadata2 diffs :
  _compare_tables label1 metadata1 label2 metadata2 = Ok diffs →
  Forall (justified label1 metadata1 label2 metadata2) diffs.
Proof.
  intros Hr. destruct (_compare_tables_inv _ _ _ _ _ Hr) as (c & Hc & ->).
  rewrite !Forall_app. split_and!.
  - apply Forall_fmap, Forall_forall. intros table Hin.
    apply elem_of_sorted, elem_of_difference in Hin as [H1 H2].
    rewrite elem_of_get_all_tables in H1, H2.
    unfold justified; simpl. split_and!; [done..|]. by apply eq_None_not_Some.
  - apply Forall_fmap, Forall_forall. intros table Hin.
    apply elem_of_sorted, elem_of_difference in Hin as [H2 H1].
    rewrite elem_of_get_all_tables in H1, H2.
    unfold justified; simpl. split_and!; [done|done|done| |done].
    by apply eq_None_not_Some.
  - eapply collect_Forall; [done|]. intros table rt _. unfold common_table_item, dict_getitem.
    destruct (dict_get metadata1 table) as [c1|] eqn:Ht1; simpl; [|done].
    destruct (dict_get metadata2 table) as [c2|] eqn:Ht2; simpl; [|done].
    by apply _compare_columns_justified.
Qed.

(** X1. Every entry of a comparison is justified by the two snapshots and
    carries the two labels: a [MISSING_TABLE] (resp. [EXTRA_TABLE]) names a
    table that only the first (resp. second) snapshot has, with an empty
    column name; a [MISSING_COLUMN] (resp. [EXTRA_COLUMN]) names a table of
    both and a column that only the first (resp. second) has; a
    [COLUMN_MISMATCH] names a column of both whose type or nullability
    differ. *)
Theorem compare_tables_justified label1 metadata1 label2 metadata2 diffs :
  _compare_tables label1 metadata1 label2 metadata2 = Ok diffs →
  Forall (justified label1 metadata1 label2 metadata2) diffs.
Proof.
  apply compare_tables_justified_aux.
Qed.

Lemma compare_tables_justified_witness :
  ∃ diffs, _compare_tables "db1" shop_v1 "db2" shop_v2 = Ok diffs
    ∧ length diffs = 5
    ∧ Forall (justified "db1" shop_v1 "db2" shop_v2) diffs.
Proof.
  eexists. split; [vm_compute; reflexivity|]. split; [reflexivity|].
  apply (compare_tables_justified "db1" shop_v1 "db2" shop_v2).
  vm_compute. reflexivity.
Defined.

(** ** One entry per table and column *)

Lemma StronglySorted_NoDup_fmap {A B} (R : relation A) (f : A → B) (l : list A) :
  StronglySorted R l →
  (∀ x y, x ∈ l → y ∈ l → R x y → f x ≠ f y) →
  NoDup (f <$> l).
Proof.
  induction 1 as [|x l Hl IH Hx]; intros Hne; [constructor|].
  rewrite fmap_cons. constructor.
  - intros (y & Hxy & Hy)%list_elem_of_fmap.
    rewrite Forall_forall in Hx.
    apply (Hne x y); [left|by right|by apply Hx|done].
  - apply IH. intros y z Hy Hz. apply Hne; by right.
Qed.

Lemma justified_diff_lt_ne label1 metadata1 label2 metadata2 x y :
  justified label1 metadata1 label2 metadata2 x →
  justified label1 metadata1 label2 metadata2 y →
  diff_lt x y →
  (table_name x, diff_column x) ≠ (table_name y, diff_column y).
Proof.
  intros (_ & _ & Hx) (_ & _ & Hy) Hlt [= Ht Hc].
  unfold diff_lt, section_rank, group_rank, str_lt, strict in Hlt.
  unfold lookup_column in Hx, Hy.
  rewrite <- Ht, <- Hc in Hy.
  destruct (dict_get metadata1 (table_name x)) as [c1|],
           (dict_get metadata2 (table_name x)) as [c2|];
    simpl in Hx, Hy;
    destruct (diff_type x), (diff_type y);
    destruct Hlt as [Hlt|[_ [[_ Hlt]|[_ [Hlt|[_ [_ Hlt]]]]]]];
    try lia; try (by destruct Hlt); try (by rewrite Ht in Hlt);
    try (by rewrite Hc in Hlt);
    repeat match goal with
           | H : _ ∧ _ |- _ => destruct H
           | H : ∃ _, _ |- _ => destruct H
           | H : is_Some None |- _ => by destruct H
           | H : is_Some ?o, H' : ?o = None |- _ => rewrite H' in H
           | H : ?o = Some _, H' : ?o = None |- _ => rewrite H' in H; discriminate
           | H : None = Some _ |- _ => discriminate
           | H : Some _ = None |- _ => discriminate
           end.
Qed.

(** X2. A comparison has at most one entry for a table and column: no table
    or column is reported twice, and no table is reported both as a whole
    and for one of its columns. *)
Theorem compare_tables_one_entry_per_column label1 metadata1 label2 metadata2 diffs :
  _compare_tables label1 metadata1 label2 metadata2 = Ok diffs →
  NoDup ((λ x, (table_name x, diff_column x)) <$> diffs).
Proof.
  intros Hr.
  pose proof (compare_tables_justified_aux label1 metadata1 label2 metadata2 diffs Hr) as Hj.
  rewrite Forall_forall in Hj.
  eapply StronglySorted_NoDup_fmap; [by eapply _compare_tables_StronglySorted|].
  intros x y Hx Hy. eapply justified_diff_lt_ne; by apply Hj.
Qed.

Lemma compare_tables_one_entry_per_column_witness :
  ∃ diffs, _compare_tables "db1" shop_v1 "db2" shop_v2 = Ok diffs
    ∧ NoDup ((λ x, (table_name x, diff_column x)) <$> diffs).
Proof.
  eexists. split; [vm_compute; reflexivity|].
  apply (compare_tables_one_entry_per_column "db1" shop_v1 "db2" shop_v2).
  vm_compute. reflexivity.
Defined.

(** ** When a comparison raises *)

(** X3. [_compare_tables] returns exactly when, in every table that both
    snapshots have, every column descriptor has a name and the descriptor
    kept for each name has a type and a nullability; otherwise it raises a
    [KeyError].  Tables of one snapshot only are not looked into, and the
    labels play no role. *)
Theorem compare_tables_returns_iff label1 metadata1 label2 metadata2 :
  (is_Ok (_compare_tables label1 metadata1 label2 metadata2)
   ↔ ∀ table columns1 columns2,
       dict_get metadata1 table = Some columns1 →
       dict_get metadata2 table = Some columns2 →
       Forall (λ col, is_Some (column_name col)) columns1
       ∧ Forall (λ col, is_Some (column_name col)) columns2
       ∧ ∀ name col,
           find_col name columns1 = Some col ∨ find_col name columns2 = Some col →
           is_Some (data_type col) ∧ is_Some (is_nullable col))
  ∧ (∀ e, _compare_tables label1 metadata1 label2 metadata2 = Raise e →
          ∃ key, e = KeyError key).
Proof.
  split.
  - rewrite _compare_tables_is_Ok.
    split; intros H table c1 c2 H1 H2.
    + eapply (proj1 (_compare_columns_is_Ok table c1 c2 label1 label2)); eauto.
    + apply (proj2 (_compare_columns_is_Ok table c1 c2 label1 label2)); eauto.
  - intros e He.
    pose proof (raises_KeyError_compare_tables label1 metadata1 label2 metadata2) as Hk.
    by rewrite He in Hk.
Qed.

Lemma compare_tables_returns_iff_witness :
  is_Ok (_compare_tables "a" untyped_orders "b" [("users", [col "id" "int" "NO"])])
  ∧ _compare_tables "a" untyped_orders "b" [("orders", [])]
    = Raise (KeyError "data_type").
Proof.
  split.
  - apply (compare_tables_returns_iff "a" untyped_orders "b" [("users", [col "id" "int" "NO"])]).
    intros table c1 c2 H1 H2. simpl in H1, H2.
    repeat case_decide; simplify_eq.
    split_and!; [repeat constructor; by eexists..|].
    intros name c [Hc|Hc]; simpl in Hc; case_decide; simplify_eq; split; by eexists.
  - vm_compute. reflexivity.
Defined.

(** ** Column lists with repeated names, or in another order *)

(** X4. [_compare_columns] sees a column list only through the descriptor it
    keeps for each name, the last one with that name: two lists (of named
    descriptors) with the same kept descriptors give the same result, on
    either side.  So the order of the columns does not matter, and of several
    descriptors with one name only the last counts. *)
Theorem compare_columns_last_wins table columns1 columns1' columns2 columns2'
    label1 label2 :
  Forall (λ col, is_Some (column_name col)) columns1 →
  Forall (λ col, is_Some (column_name col)) columns1' →
  Forall (λ col, is_Some (column_name col)) columns2 →
  Forall (λ col, is_Some (column_name col)) columns2' →
  (∀ name, find_col name columns1 = find_col name columns1') →
  (∀ name, find_col name columns2 = find_col name columns2') →
  _compare_columns table columns1 columns2 label1 label2
  = _compare_columns table columns1' columns2' label1 label2.
Proof.
  intros [d1 Hd1]%cols_dict_is_Ok [d1' Hd1']%cols_dict_is_Ok
         [d2 Hd2]%cols_dict_is_Ok [d2' Hd2']%cols_dict_is_Ok Heq1 Heq2.
  rewrite !_compare_columns_collect, Hd1, Hd1', Hd2, Hd2'; simpl.
  assert (names d1' = names d1) as ->.
  { apply set_eq. intros name.
    by rewrite (cols_dict_names _ _ _ Hd1), (cols_dict_names _ _ _ Hd1'), Heq1. }
  assert (names d2' = names d2) as ->.
  { apply set_eq. intros name.
    by rewrite (cols_dict_names _ _ _ Hd2), (cols_dict_names _ _ _ Hd2'), Heq2. }
  assert (∀ name, dict_getitem d1' name = dict_getitem d1 name) as Hg1.
  { intros name. unfold dict_getitem.
    by rewrite (cols_dict_get _ _ _ Hd1), (cols_dict_get _ _ _ Hd1'), Heq1. }
  assert (∀ name, dict_getitem d2' name = dict_getitem d2 name) as Hg2.
  { intros name. unfold dict_getitem.
    by rewrite (cols_dict_get _ _ _ Hd2), (cols_dict_get _ _ _ Hd2'), Heq2. }
  rewrite (collect_ext (missing_column_item table label1 label2 d1')
             (missing_column_item table label1 label2 d1))
    by (intros; unfold missing_column_item; by rewrite Hg1).
  rewrite (collect_ext (extra_column_item table label1 label2 d2')
             (extra_column_item table label1 label2 d2))
    by (intros; unfold extra_column_item; by rewrite Hg2).
  rewrite (collect_ext (mismatch_item table label1 label2 d1' d2')
             (mismatch_item table label1 label2 d1 d2))
    by (intros; unfold mismatch_item; by rewrite Hg1, Hg2).
  done.
Qed.

Lemma compare_columns_last_wins_witness :
  _compare_columns "users"
    [col "id" "int" "NO"; col "email" "text" "YES"; col "id" "bigint" "NO"]
    [col "id" "bigint" "NO"] "db1" "db2"
  = _compare_columns "users"
      [col "id" "bigint" "NO"; col "email" "text" "YES"]
      [col "id" "bigint" "NO"] "db1" "db2".
Proof.
  apply compare_columns_last_wins.
  - repeat constructor; by eexists.
  - repeat constructor; by eexists.
  - repeat constructor; by eexists.
  - repeat constructor; by eexists.
  - intros name. unfold col. simpl. repeat case_decide; simplify_eq; done.
  - done.
Defined.

(** ** Runs of [generate_diff_report] *)

Section Runs.
Variable json_load : nat → string → option (list (string * list column)).

Lemma load_all_app files1 files2 metadata_map w :
  load_all json_load (files1 ++ files2) metadata_map w
  = match load_all json_load files1 metadata_map w with
    | (Ok metadata_map1, w1) => load_all json_load files2 metadata_map1 w1
    | (Raise e, w1) => (Raise e, w1)
    end.
Proof.
  revert metadata_map w.
  induction files1 as [|[[label filepath] c] rest IH]; intros metadata_map w; simpl; [done|].
  destruct (_load_metadata json_load filepath w) as [[m|e] w1]; [|done].
  apply IH.
Qed.

Lemma _load_metadata_Raise filepath w e w' :
  _load_metadata json_load filepath w = (Raise e, w') →
  e = ReadError filepath
  ∧ dict_get (metadata_cache w) filepath = None
  ∧ w' = World (metadata_cache w) (reads w ++ [filepath]) (dirs w) (files w).
Proof.
  unfold _load_metadata.
  destruct (dict_get (metadata_cache w) filepath) as [m|]; [done|].
  destruct (json_load _ filepath) as [m|]; [done|].
  by intros [= <- <-].
Qed.

Lemma load_all_Raise files metadata_map w e w' :
  load_all json_load files metadata_map w = (Raise e, w') →
  ∃ filepath, e = ReadError filepath ∧ filepath ∈ (λ f, f.1.2) <$> files.
Proof.
  revert metadata_map w.
  induction files as [|[[label filepath] c] rest IH]; intros metadata_map w; simpl; [done|].
  destruct (_load_metadata json_load filepath w) as [[m|e'] w1] eqn:Hl.
  - intros (p & -> & Hp)%IH. exists p. split; [done|by right].
  - intros [= <- <-]. apply _load_metadata_Raise in Hl as (-> & _).
    exists filepath. split; [done|left].
Qed.

Lemma fold_set_entry_keys {V} (es d : pydict V) k :
  k ∈ dict_keys (fold_left set_entry es d) ↔ k ∈ dict_keys d ∨ k ∈ es.*1.
Proof.
  revert d. induction es as [|[k' v'] es IH]; intros d; simpl.
  - rewrite elem_of_nil. naive_solver.
  - rewrite IH. unfold set_entry; simpl.
    rewrite elem_of_dict_keys_set, elem_of_cons. naive_solver.
Qed.

Lemma load_all_keys files metadata_map w mm w' k :
  load_all json_load files metadata_map w = (Ok mm, w') →
  k ∈ dict_keys mm ↔ k ∈ dict_keys metadata_map ∨ k ∈ (λ f, f.1.1) <$> files.
Proof.
  intros (snapshots & Hlen & ->)%load_all_entries.
  rewrite fold_set_entry_keys, fst_zip; [done|].
  rewrite length_fmap. lia.
Qed.

Lemma compare_all_at_most_one (metadata_map : pydict (list (string * list column))) :
  length metadata_map ≤ 1 → compare_all metadata_map = Ok [].
Proof.
  destruct metadata_map as [|e [|e' rest]]; simpl; [done|done|lia].
Qed.

Lemma NoDup_all_equal {A} (l : list A) (a : A) :
  NoDup l → (∀ x, x ∈ l → x = a) → length l ≤ 1.
Proof.
  destruct l as [|x [|y l]]; simpl; [lia|lia|].
  intros [Hx _]%NoDup_cons Hall. destruct Hx.
  rewrite (Hall x), (Hall y); [left|right; left|left].
Qed.

(** X5. Entries that all carry one label are never compared: whatever their
    snapshots are (also when column descriptors lack fields), the run
    returns without writing a file, unless a source cannot be loaded.  This
    covers the runs with no entry and with one entry. *)
Theorem same_label_never_compared metadata_files output_folder timestamp w label :
  (∀ f, f ∈ metadata_files → f.1.1 = label) →
  files (generate_diff_report json_load metadata_files output_folder timestamp w).2
  = files w
  ∧ ((generate_diff_report json_load metadata_files output_folder timestamp w).1 = Ok ()
     ∨ ∃ filepath,
         (generate_diff_report json_load metadata_files output_folder timestamp w).1
         = Raise (ReadError filepath)).
Proof.
  intros Hlabel. unfold generate_diff_report.
  pose proof (load_all_keeps_files json_load metadata_files []
    (World (metadata_cache w) (reads w) (dirs w ++ [output_folder]) (files w))) as Hf.
  pose proof (load_all_NoDup json_load metadata_files []
    (World (metadata_cache w) (reads w) (dirs w ++ [output_folder]) (files w))) as Hnd.
  destruct (load_all _ _ _ _) as [[mm|e] w1] eqn:Hload; simpl in *.
  - rewrite compare_all_at_most_one; [by split; [|left]|].
    apply (NoDup_all_equal (dict_keys mm) label) in Hnd.
    + unfold dict_keys in Hnd. by rewrite length_fmap in Hnd.
    + constructor.
    + done.
    + intros k Hk. apply (load_all_keys _ _ _ _ _ _ Hload) in Hk as [?%elem_of_nil|Hk]; [done|].
      apply list_elem_of_fmap in Hk as (f & -> & Hin). by apply Hlabel.
  - split; [done|]. right.
    apply load_all_Raise in Hload as (p & -> & _). by exists p.
Qed.

(** X6. When the sources before some entry load and the source of that entry
    is not in the cache and cannot be read, the run raises [ReadError] for
    it: the entries after it are not loaded, nothing is compared, no file is
    written; the read is recorded and the snapshots loaded before stay in
    the cache. *)
Theorem unreadable_source_aborts files1 files2 label filepath c
    output_folder timestamp w metadata_map w1 :
  load_all json_load files1 []
    (World (metadata_cache w) (reads w) (dirs w ++ [output_folder]) (files w))
  = (Ok metadata_map, w1) →
  dict_get (metadata_cache w1) filepath = None →
  json_load (length (reads w1)) filepath = None →
  generate_diff_report json_load (files1 ++ (label, filepath, c) :: files2)
    output_folder timestamp w
  = (Raise (ReadError filepath),
     World (metadata_cache w1) (reads w1 ++ [filepath]) (dirs w1) (files w))
  ∧ files w1 = files w.
Proof.
  intros Hload Hc Hl.
  pose proof (load_all_keeps_files json_load files1 []
    (World (metadata_cache w) (reads w) (dirs w ++ [output_folder]) (files w))) as Hf.
  rewrite Hload in Hf; simpl in Hf.
  split; [|done].
  unfold generate_diff_report. rewrite load_all_app, Hload. simpl.
  unfold _load_metadata. by rewrite Hc, Hl, Hf.
Qed.
End Runs.

Lemma same_label_never_compared_witness :
  files (generate_diff_report (two_sources true)
           [("a", "a.json", cfg); ("a", "b.json", cfg)] "out" "t0" init_world).2
  = []
  ∧ ((generate_diff_report (two_sources true)
        [("a", "a.json", cfg); ("a", "b.json", cfg)] "out" "t0" init_world).1 = Ok ()
     ∨ ∃ filepath,
         (generate_diff_report (two_sources true)
            [("a", "a.json", cfg); ("a", "b.json", cfg)] "out" "t0" init_world).1
         = Raise (ReadError filepath)).
Proof.
  apply (same_label_never_compared (two_sources true)
           [("a", "a.json", cfg); ("a", "b.json", cfg)] "out" "t0" init_world "a").
  intros f Hf.
  repeat (apply elem_of_cons in Hf as [->|Hf]; [reflexivity|]).
  apply elem_of_nil in Hf. destruct Hf.
Defined.

Lemma unreadable_source_aborts_witness :
  generate_diff_report (two_sources true)
    [("a", "a.json", cfg); ("c", "c.json", cfg); ("b", "b.json", cfg)]
    "out" "t0" init_world
  = (Raise (ReadError "c.json"),
     World [("a.json", untyped_orders)] ["a.json"; "c.json"] ["out"] []).
Proof.
  apply (unreadable_source_aborts (two_sources true)
           [("a", "a.json", cfg)] [("b", "b.json", cfg)] "c" "c.json" cfg
           "out" "t0" init_world [("a", untyped_orders)]
           (World [("a.json", untyped_orders)] ["a.json"] ["out"] []));
    reflexivity.
Defined.

Section Reruns.
Variable json_load : nat → string → option (list (string * list column)).

(** The entries of the label map as the cache of [w] gives them. *)
Local Abbreviation cached_entries w files :=
  ((λ f : string * string * PgConfig,
      (f.1.1, default [] (dict_get (metadata_cache w) f.1.2))) <$> files).

Lemma load_all_Ok_cache files metadata_map w mm w' :
  load_all json_load files metadata_map w = (Ok mm, w') →
  (∀ p v, dict_get (metadata_cache w) p = Some v →
          dict_get (metadata_cache w') p = Some v)
  ∧ (∀ f, f ∈ files → is_Some (dict_get (metadata_cache w') f.1.2))
  ∧ mm = fold_left set_entry (cached_entries w' files) metadata_map.
Proof.
  revert metadata_map w.
  induction files as [|[[label filepath] c] rest IH]; intros metadata_map w; simpl.
  - intros [= <- <-]. split_and!; [done| |done]. by intros f ?%elem_of_nil.
  - destruct (_load_metadata json_load filepath w) as [[m|e] w1] eqn:Hl; [|done].
    intros (Hkeep & Hall & ->)%IH.
    pose proof (_load_metadata_Ok _ _ _ _ _ Hl) as Hm.
    split_and!.
    + intros p v Hp. apply Hkeep.
      pose proof (_load_metadata_keeps json_load p w filepath v Hp) as Hk.
      by rewrite Hl in Hk.
    + intros f [->|Hf]%elem_of_cons; [|by apply Hall].
      simpl. rewrite (Hkeep _ _ Hm). by eexists.
    + simpl. by rewrite (Hkeep _ _ Hm).
Qed.

Lemma load_all_cached (other_load : nat → string → option (list (string * list column)))
    files metadata_map w :
  (∀ f, f ∈ files → is_Some (dict_get (metadata_cache w) f.1.2)) →
  load_all other_load files metadata_map w
  = (Ok (fold_left set_entry (cached_entries w files) metadata_map), w).
Proof.
  revert metadata_map.
  induction files as [|[[label filepath] c] rest IH]; intros metadata_map Hall; simpl; [done|].
  destruct (Hall (label, filepath, c)) as [m Hm]; [left|]. simpl in Hm.
  rewrite (_load_metadata_cached other_load filepath w m Hm), Hm. simpl.
  apply IH. intros f Hf. apply Hall. by right.
Qed.

Lemma load_all_reads_keys files metadata_map w mm w' :
  dict_keys (metadata_cache w) = reads w →
  load_all json_load files metadata_map w = (Ok mm, w') →
  dict_keys (metadata_cache w') = reads w'
  ∧ ∀ p, p ∈ reads w' ↔ p ∈ reads w ∨ p ∈ (λ f, f.1.2) <$> files.
Proof.
  revert metadata_map w.
  induction files as [|[[label filepath] c] rest IH]; intros metadata_map w Hk; simpl.
  - intros [= <- <-]. split; [done|]. intros p. rewrite elem_of_nil. naive_solver.
  - unfold _load_metadata.
    destruct (dict_get (metadata_cache w) filepath) as [m|] eqn:Hc.
    + intros [Hk' Hr]%IH; [|done]. split; [done|]. intros p.
      rewrite Hr, elem_of_cons.
      assert (filepath ∈ reads w).
      { rewrite <- Hk. apply dict_get_is_Some. by eexists. }
      naive_solver.
    + destruct (json_load _ filepath) as [m|]; [|done].
      intros [Hk' Hr]%IH.
      * split; [done|]. intros p. rewrite Hr; simpl.
        rewrite elem_of_app, list_elem_of_singleton, elem_of_cons. naive_solver.
      * simpl. rewrite dict_keys_set, decide_False, Hk; [done|].
        intros Hin%dict_get_is_Some. rewrite Hc in Hin. by destruct Hin.
Qed.

(** X7. After a run that returned, a second run on the same object loads
    every snapshot from the cache: it reads no source, leaves the cache as
    it is and reports the same rows, whatever the sources hold by then. *)
Theorem second_run_reads_nothing metadata_files output_folder timestamp w w1 :
  generate_diff_report json_load metadata_files output_folder timestamp w = (Ok (), w1) →
  ∀ (other_load : nat → string → option (list (string * list column)))
    (output_folder' timestamp' : string),
  ∃ w2,
    generate_diff_report other_load metadata_files output_folder' timestamp' w1
    = (Ok (), w2)
    ∧ reads w2 = reads w1
    ∧ metadata_cache w2 = metadata_cache w1
    ∧ snd <$> drop (length (files w1)) (files w2)
      = snd <$> drop (length (files w)) (files w1).
Proof.
  intros Hrun other_load out' ts'. unfold generate_diff_report in Hrun.
  pose proof (load_all_keeps_files json_load metadata_files []
    (World (metadata_cache w) (reads w) (dirs w ++ [output_folder]) (files w))) as Hf.
  destruct (load_all json_load _ _ _) as [[mm|e] w0] eqn:Hload; [|done].
  simpl in Hf.
  destruct (load_all_Ok_cache _ _ _ _ _ Hload) as (_ & Hall & Hmm).
  destruct (compare_all mm) as [ds|e] eqn:Hcmp; [|done].
  assert (metadata_cache w1 = metadata_cache w0 ∧ reads w1 = reads w0
          ∧ files w1 = files w
                       ++ match ds with
                          | [] => []
                          | _ => [(output_folder +:+ "/" +:+ timestamp
                                     +:+ "-schema_differences.csv",
                                   headers :: (csv_row <$> ds))]
                          end) as (Hc1 & Hr1 & Hf1).
  { destruct ds; injection Hrun as <-; simpl; rewrite Hf;
      [by rewrite (right_id_L [] (++))|done]. }
  unfold generate_diff_report.
  rewrite (load_all_cached other_load metadata_files []
             (World (metadata_cache w1) (reads w1) (dirs w1 ++ [out']) (files w1))).
  2:{ intros f Hin. simpl. rewrite Hc1. by apply Hall. }
  simpl. rewrite Hc1, <- Hmm, Hcmp.
  destruct ds as [|d ds].
  - eexists. split; [done|]. simpl. split_and!; [done|done|].
    rewrite Hf1, (right_id_L [] (++)). by rewrite !drop_all.
  - eexists. split; [done|]. simpl. split_and!; [done|done|].
    rewrite drop_app_length. rewrite Hf1, drop_app_length. done.
Qed.

(** X8. In a run on a fresh object in which every load succeeds, the sources
    read are exactly the sources that the entries name, each read once, and
    they are the keys of the cache, in the order of the reads. *)
Theorem sources_read_once_each metadata_files output_folder timestamp r w1 :
  generate_diff_report json_load metadata_files output_folder timestamp init_world
  = (r, w1) →
  (∀ filepath, r ≠ Raise (ReadError filepath)) →
  reads w1 = dict_keys (metadata_cache w1)
  ∧ NoDup (reads w1)
  ∧ ∀ filepath, filepath ∈ reads w1 ↔ filepath ∈ (λ f, f.1.2) <$> metadata_files.
Proof.
  intros Hrun Hr.
  pose proof (load_all_inv json_load metadata_files []
                (World [] [] [output_folder] [])) as Hnd.
  unfold generate_diff_report in Hrun. simpl in Hrun.
  destruct (load_all json_load _ _ _) as [[mm|e] w0] eqn:Hload.
  - destruct (load_all_reads_keys metadata_files []
                (World [] [] [output_folder] []) mm w0 eq_refl Hload) as [Hk Hin].
    assert (reads w1 = reads w0 ∧ metadata_cache w1 = metadata_cache w0) as [-> ->].
    { destruct (compare_all mm) as [[|d ds]|e]; by injection Hrun as <- <-. }
    split_and!; [done| |].
    + apply Hnd. split; simpl; [constructor|by intros p ?%elem_of_nil].
    + intros p. rewrite Hin; simpl. rewrite elem_of_nil. naive_solver.
  - injection Hrun as <- <-.
    apply load_all_Raise in Hload as (p & -> & _). by destruct (Hr p).
Qed.
End Reruns.

Lemma second_run_reads_nothing_witness :
  ∃ w1 w2,
    generate_diff_report changing_source
      [("a", "a.json", cfg); ("b", "b.json", cfg)] "out" "t0" init_world = (Ok (), w1)
    ∧ generate_diff_report (λ _ _, None)
        [("a", "a.json", cfg); ("b", "b.json", cfg)] "out2" "t1" w1 = (Ok (), w2)
    ∧ reads w2 = ["a.json"; "b.json"]
    ∧ snd <$> files w2 = (snd <$> files w1) ++ (snd <$> files w1).
Proof.
  eexists.
  edestruct (second_run_reads_nothing changing_source
               [("a", "a.json", cfg); ("b", "b.json", cfg)] "out" "t0" init_world)
    as (w2 & Hrun2 & Hreads & _ & _).
  - vm_compute. reflexivity.
  - exists w2. split; [reflexivity|]. split; [exact Hrun2|].
    split; [exact Hreads|].
    vm_compute in Hrun2. injection Hrun2 as <-. reflexivity.
Defined.

Lemma sources_read_once_each_witness :
  ∃ w1,
    generate_diff_report changing_source
      [("a", "a.json", cfg); ("b", "b.json", cfg); ("c", "a.json", cfg)]
      "out" "t0" init_world = (Ok (), w1)
    ∧ reads w1 = dict_keys (metadata_cache w1)
    ∧ NoDup (reads w1).
Proof.
  eexists. split; [vm_compute; reflexivity|].
  edestruct (sources_read_once_each changing_source
               [("a", "a.json", cfg); ("b", "b.json", cfg); ("c", "a.json", cfg)]
               "out" "t0") as (Hk & Hnd & _).
  - vm_compute. reflexivity.
  - intros p. discriminate.
  - split; [exact Hk|exact Hnd].
Defined.

(** ** What [mask_string] hides *)

Lemma string_length_app (s1 s2 : string) :
  String.length (s1 +:+ s2) = String.length s1 + String.length s2.
Proof. induction s1 as [|c s1 IH]; simpl; [done|]. by rewrite IH. Qed.

Lemma take_chars_split k s :
  k ≤ String.length s →
  ∃ rest, s = take_chars k s +:+ rest ∧ String.length rest = String.length s - k.
Proof.
  intros Hk. destruct (take_chars_prefix k s Hk) as (rest & Hs & Hlen).
  exists rest. split; [done|].
  rewrite Hs at 1. rewrite string_length_app, Hlen. lia.
Qed.

(** X9. Whatever the visible length, the result of [mask_string] is a
    prefix of the value followed by ["***"], and it never shows a non-empty
    value in full: at least one character is left out. *)
Theorem mask_string_never_whole (value : string) (n : Z) :
  ∃ prefix rest,
    value = prefix +:+ rest
    ∧ mask_string value n = prefix +:+ "***"
    ∧ (value ≠ "" → rest ≠ "").
Proof.
  unfold mask_string.
  destruct (bool_decide (value = "")
            || bool_decide (Z.of_nat (String.length value) ≤ n)%Z) eqn:Hb; simpl.
  { by exists "", value. }
  apply orb_false_iff in Hb as [Hne%bool_decide_eq_false Hlen%bool_decide_eq_false].
  assert (0 < String.length value) by (destruct value; [done|simpl; lia]).
  unfold slice_to. case_decide.
  - destruct (take_chars_split (Z.to_nat n) value) as (rest & Hs & Hrest); [lia|].
    exists (take_chars (Z.to_nat n) value), rest. split_and!; [done|done|].
    intros _ ->. simpl in Hrest. lia.
  - destruct (take_chars_split (String.length value - Z.to_nat (- n)) value)
      as (rest & Hs & Hrest); [lia|].
    exists (take_chars (String.length value - Z.to_nat (- n)) value), rest.
    split_and!; [done|done|].
    intros _ ->. simpl in Hrest. lia.
Qed.

(** X10. With a negative visible length [mask_string] does not mask the
    whole value: of a non-empty value it hides only the last [-n] characters
    (all of them when there are fewer) and shows the rest. *)
Theorem mask_string_negative (value : string) (n : Z) :
  (n < 0)%Z → value ≠ "" →
  ∃ prefix rest,
    value = prefix +:+ rest
    ∧ String.length rest = Nat.min (Z.to_nat (- n)) (String.length value)
    ∧ mask_string value n = prefix +:+ "***".
Proof.
  intros Hn Hne. unfold mask_string.
  rewrite bool_decide_false by done.
  rewrite bool_decide_false by lia. simpl.
  unfold slice_to. rewrite decide_False by lia.
  destruct (take_chars_split (String.length value - Z.to_nat (- n)) value)
    as (rest & Hs & Hrest); [lia|].
  exists (take_chars (String.length value - Z.to_nat (- n)) value), rest.
  split_and!; [done|lia|done].
Qed.

Lemma mask_string_negative_witness :
  ∃ prefix rest,
    "secret" = prefix +:+ rest
    ∧ String.length rest = 2
    ∧ mask_string "secret" (-2) = prefix +:+ "***".
Proof.
  destruct (mask_string_negative "secret" (-2)) as (prefix & rest & Hs & Hlen & Hm);
    [lia|discriminate|].
  exists prefix, rest. split; [exact Hs|]. split; [exact Hlen|exact Hm].
Defined.

(** ** Configuration from the environment *)

Lemma mapM_EnvOk_Forall2 {A B} (f : A → env_result B) (l : list A) (r : list B) :
  mapM f l = EnvOk r ↔ Forall2 (λ x y, f x = EnvOk y) l r.
Proof.
  split.
  - revert r. induction l as [|x l IH]; intros r; simpl.
    { intros [= <-]. constructor. }
    destruct (f x) as [y|s] eqn:Hx; simpl; [|done].
    destruct (mapM f l) as [k|s]; simpl; [|done].
    intros [= <-]. constructor; [done|]. by apply IH.
  - induction 1 as [|x y l r Hx _ IH]; simpl; [done|].
    rewrite Hx; simpl. by rewrite IH.
Qed.

Lemma mapM_ValueError {A B} (f : A → env_result B) (l : list A) s :
  mapM f l = ValueError s → ∃ x, x ∈ l ∧ f x = ValueError s.
Proof.
  induction l as [|x l IH]; simpl; [done|].
  destruct (f x) as [y|s'] eqn:Hx; simpl.
  - destruct (mapM f l) as [k|s'']; simpl; [done|].
    intros [= ->]. destruct IH as (z & Hz & Hfz); [done|].
    exists z. split; [by right|done].
  - intros [= ->]. exists x. split; [left|done].
Qed.

Lemma getenv_insert environ key value key' fallback :
  getenv (<[key:=value]> environ) key' fallback
  = if decide (key = key') then value else getenv environ key' fallback.
Proof.
  unfold getenv. rewrite lookup_insert. by case_decide.
Qed.

(** The names of the variables are pairwise different. *)
Lemma host_key_inj i j : host_key i = host_key j → i = j.
Proof. unfold host_key. intros H%(inj (String.app _)). by apply (inj pretty). Qed.

Lemma host_key_other i j :
  host_key i ≠ "DB_COUNT" ∧ host_key i ≠ port_key j ∧ host_key i ≠ user_key j
  ∧ host_key i ≠ password_key j ∧ host_key i ≠ name_key j.
Proof.
  unfold host_key, port_key, user_key, password_key, name_key.
  split_and!; intros H; cbv [String.append] in H; discriminate.
Qed.

Section ConfigProperties.
Variable int : string → option Z.

(** X11. When no variable other than [DB_COUNT] is set, and [DB_COUNT] (or
    its default ["1"]) reads as [n], [load_from_env] returns [n] configs
    with the defaults localhost, 5432, postgres, password, postgres; none
    for [n <= 0]. *)
Theorem load_from_env_defaults (environ : gmap string string) (n : Z) :
  int (getenv environ "DB_COUNT" "1") = Some n →
  int "5432" = Some 5432%Z →
  (∀ key, key ≠ "DB_COUNT" → environ !! key = None) →
  load_from_env int environ = EnvOk (replicate (Z.to_nat n) default_config).
Proof.
  intros Hn Hport Hunset. unfold load_from_env, int_of. rewrite Hn. simpl.
  apply mapM_EnvOk_Forall2.
  generalize 1. induction (Z.to_nat n) as [|k IH]; intros i; simpl; constructor; [|done].
  unfold load_config, getenv, int_of.
  rewrite !Hunset.
  - simpl. by rewrite Hport.
  - unfold name_key. intros H. cbv [String.append] in H. discriminate.
  - unfold password_key. intros H. cbv [String.append] in H. discriminate.
  - unfold user_key. intros H. cbv [String.append] in H. discriminate.
  - unfold port_key. intros H. cbv [String.append] in H. discriminate.
  - apply host_key_other; exact 0.
Qed.
End ConfigProperties.

Lemma load_from_env_defaults_witness :
  load_from_env decimal {[ "DB_COUNT" := "3" ]} = EnvOk (replicate 3 default_config)
  ∧ load_from_env decimal ∅ = EnvOk [default_config].
Proof.
  split.
  - apply (load_from_env_defaults decimal {[ "DB_COUNT" := "3" ]} 3); [reflexivity..|].
    intros key Hkey. by apply lookup_singleton_ne.
  - apply (load_from_env_defaults decimal ∅ 1); [reflexivity..|].
    intros key _. apply lookup_empty.
Defined.

Section ConfigOverrides.
Variable int : string → option Z.

Lemma load_from_env_Ok environ configs :
  load_from_env int environ = EnvOk configs
  ↔ ∃ n, int (getenv environ "DB_COUNT" "1") = Some n
         ∧ Forall2 (λ i c, load_config int environ i = EnvOk c)
             (seq 1 (Z.to_nat n)) configs.
Proof.
  unfold load_from_env, int_of.
  destruct (int (getenv environ "DB_COUNT" "1")) as [n|]; simpl.
  - rewrite mapM_EnvOk_Forall2. split; [by exists n|]. by intros (? & [= <-] & ?).
  - split; [done|]. by intros (? & ? & _).
Qed.

Lemma load_config_Ok environ i c :
  load_config int environ i = EnvOk c
  ↔ host c = getenv environ (host_key i) "localhost"
    ∧ int (getenv environ (port_key i) "5432") = Some (port c)
    ∧ user c = getenv environ (user_key i) "postgres"
    ∧ password c = getenv environ (password_key i) "password"
    ∧ database c = getenv environ (name_key i) "postgres".
Proof.
  unfold load_config, int_of.
  destruct (int (getenv environ (port_key i) "5432")) as [p|]; simpl.
  - split; [by intros [= <-]|]. destruct c; simpl. naive_solver.
  - split; [done|]. by intros (_ & ? & _).
Qed.

(** X12. Setting the host variable of database [i + 1] changes the host of
    config number [i + 1] and nothing else: the count, the other configs and
    the other fields of that config stay as they were. *)
Theorem load_from_env_set_host environ configs (i : nat) c h :
  load_from_env int environ = EnvOk configs →
  configs !! i = Some c →
  load_from_env int (<[host_key (S i) := h]> environ)
  = EnvOk (<[i := mkPgConfig h (port c) (user c) (password c) (database c)]> configs).
Proof.
  intros (n & Hn & Hall)%load_from_env_Ok Hc.
  apply load_from_env_Ok. exists n.
  destruct (host_key_other (S i) 0) as (Hcount & _).
  split; [by rewrite getenv_insert, decide_False|].
  apply Forall2_same_length_lookup in Hall as [Hlen Hall].
  apply Forall2_same_length_lookup. split; [by rewrite length_insert|].
  intros j x y Hx Hy.
  assert (x = S j) as ->.
  { apply lookup_seq in Hx as [-> _]. done. }
  apply load_config_Ok.
  destruct (host_key_other (S i) (S j)) as (_ & Hp & Hu & Hw & Hd).
  rewrite !getenv_insert.
  rewrite (decide_False (P := host_key (S i) = port_key (S j))) by done.
  rewrite (decide_False (P := host_key (S i) = user_key (S j))) by done.
  rewrite (decide_False (P := host_key (S i) = password_key (S j))) by done.
  rewrite (decide_False (P := host_key (S i) = name_key (S j))) by done.
  destruct (decide (j = i)) as [->|Hne].
  - rewrite list_lookup_insert_eq in Hy by (by eapply lookup_lt_Some).
    injection Hy as <-. simpl. rewrite decide_True by done.
    apply (Hall i (S i) c) in Hx; [|done].
    apply load_config_Ok in Hx as (_ & ? & ? & ? & ?). done.
  - rewrite list_lookup_insert_ne in Hy by done.
    rewrite decide_False by (intros ?%host_key_inj; congruence).
    apply load_config_Ok. by apply (Hall j).
Qed.

Lemma mapM_seq_first_error {B} (f : nat → env_result B) (a n : nat) s :
  mapM f (seq a n) = ValueError s →
  ∃ i, a ≤ i < a + n ∧ f i = ValueError s
       ∧ ∀ j, a ≤ j < i → ∃ y, f j = EnvOk y.
Proof.
  revert a. induction n as [|n IH]; intros a; simpl; [done|].
  destruct (f a) as [y|s'] eqn:Ha; simpl.
  - destruct (mapM f (seq (S a) n)) as [k|s''] eqn:Hrest; simpl; [done|].
    intros [= ->]. destruct (IH (S a) Hrest) as (i & Hi & Hfi & Hbefore).
    exists i. split; [lia|]. split; [done|].
    intros j Hj. destruct (decide (j = a)) as [->|]; [by eexists|].
    apply Hbefore. lia.
  - intros [= ->]. exists a. split; [lia|]. split; [done|]. intros j Hj. lia.
Qed.

(** X13. [load_from_env] returns a list of configs exactly when [DB_COUNT]
    (default ["1"]) reads as an integer [n] and the port (default ["5432"])
    of each database [1..n] reads as an integer; the list then has [n]
    configs ([0] for [n <= 0]).  Otherwise it raises [ValueError] with the
    offending text, that of [DB_COUNT] or of the port of the first database
    whose port does not read, and returns no config at all. *)
Theorem load_from_env_result (environ : gmap string string) :
  match load_from_env int environ with
  | EnvOk configs =>
      ∃ n, int (getenv environ "DB_COUNT" "1") = Some n
           ∧ length configs = Z.to_nat n
           ∧ ∀ i, 1 ≤ i ≤ Z.to_nat n →
                  is_Some (int (getenv environ (port_key i) "5432"))
  | ValueError s =>
      (int (getenv environ "DB_COUNT" "1") = None
       ∧ s = getenv environ "DB_COUNT" "1")
      ∨ ∃ n i, int (getenv environ "DB_COUNT" "1") = Some n
               ∧ 1 ≤ i ≤ Z.to_nat n
               ∧ s = getenv environ (port_key i) "5432"
               ∧ int s = None
               ∧ ∀ j, 1 ≤ j < i →
                      is_Some (int (getenv environ (port_key j) "5432"))
  end.
Proof.
  destruct (load_from_env int environ) as [configs|s] eqn:Hload.
  - apply load_from_env_Ok in Hload as (n & Hn & Hall).
    exists n. split; [done|].
    apply Forall2_same_length_lookup in Hall as [Hlen Hall].
    rewrite length_seq in Hlen. split; [done|].
    intros i Hi.
    destruct (lookup_lt_is_Some_2 configs (i - 1)) as [c Hc]; [lia|].
    assert (seq 1 (Z.to_nat n) !! (i - 1) = Some i) as Hs.
    { rewrite lookup_seq_lt by lia. f_equal. lia. }
    apply (Hall _ _ _ Hs) in Hc. apply load_config_Ok in Hc as (_ & Hp & _).
    by eexists.
  - unfold load_from_env, int_of in Hload.
    destruct (int (getenv environ "DB_COUNT" "1")) as [n|] eqn:Hn; simpl in Hload.
    + right. apply mapM_seq_first_error in Hload as (i & Hi & Hfi & Hbefore).
      exists n, i. split; [done|]. split; [lia|].
      unfold load_config, int_of in Hfi.
      destruct (int (getenv environ (port_key i) "5432")) eqn:Hp; simpl in Hfi; [done|].
      injection Hfi as <-. split_and!; [done|done|].
      intros j Hj. destruct (Hbefore j Hj) as [y Hy].
      apply load_config_Ok in Hy as (_ & Hy & _). by eexists.
    + left. by injection Hload as <-.
Qed.
End ConfigOverrides.

Lemma load_from_env_set_host_witness :
  load_from_env decimal
    (<[host_key 2 := "db2.example"]> {[ "DB_COUNT" := "2"; "PG_DRIFT_DB_PORT_1" := "6543" ]})
  = EnvOk [mkPgConfig "localhost" 6543 "postgres" "password" "postgres";
           mkPgConfig "db2.example" 5432 "postgres" "password" "postgres"].
Proof.
  apply (load_from_env_set_host decimal
           {[ "DB_COUNT" := "2"; "PG_DRIFT_DB_PORT_1" := "6543" ]}
           [mkPgConfig "localhost" 6543 "postgres" "password" "postgres"; default_config]
           1 default_config "db2.example").
  - vm_compute. reflexivity.
  - reflexivity.
Defined.

(** ** The console summary *)

Lemma kind_str_inj k k' : kind_str k = kind_str k' → k = k'.
Proof. destruct k, k'; simpl; intros H; try done; discriminate. Qed.

Lemma add_by_type_eq by_type diff :
  add_by_type by_type diff
  = dict_set (kind_str (diff_type diff))
      (default [] (dict_get by_type (kind_str (diff_type diff))) ++ [diff]) by_type.
Proof.
  unfold add_by_type. case_decide as Hin; [done|].
  rewrite dict_get_set, decide_True, dict_set_set by done.
  assert (dict_get by_type (kind_str (diff_type diff)) = None) as ->; [|done].
  apply eq_None_not_Some. by rewrite dict_get_is_Some.
Qed.

(** The dictionary after the grouping loop: the keys are the names of the
    kinds that occur, each with the entries of its kind in report order. *)
Lemma by_type_spec differences :
  NoDup (dict_keys (fold_left add_by_type differences []))
  ∧ (∀ key, key ∈ dict_keys (fold_left add_by_type differences []) →
            ∃ k, key = kind_str k)
  ∧ ∀ k, dict_get (fold_left add_by_type differences []) (kind_str k)
         = if decide (of_kind k differences = []) then None
           else Some (of_kind k differences).
Proof.
  induction differences as [|d ds (Hnd & Hkeys & Hget)] using rev_ind.
  { simpl. split_and!; [constructor|by intros key ?%elem_of_nil|done]. }
  rewrite fold_left_app; simpl. rewrite add_by_type_eq. split_and!.
  - by apply NoDup_dict_set.
  - intros key [->|Hin]%elem_of_dict_keys_set; [by eexists|by apply Hkeys].
  - intros k. rewrite dict_get_set. unfold of_kind in *. rewrite filter_app.
    destruct (decide (kind_str k = kind_str (diff_type d))) as [Hk|Hk].
    + apply kind_str_inj in Hk as ->.
      rewrite filter_cons_True, filter_nil by done. rewrite Hget.
      rewrite (decide_False (P := _ ++ [d] = [])) by (by intros [? ?]%app_eq_nil).
      by case_decide as Hnil; [rewrite Hnil|].
    + rewrite filter_cons_False, filter_nil by congruence.
      by rewrite (right_id_L [] (++)), Hget.
Qed.

Global Instance item_le_trans : Transitive item_le.
Proof. intros a b c. unfold item_le. apply transitivity. Qed.

Global Instance item_le_total : Total item_le.
Proof. intros a b. unfold item_le. apply total, _. Qed.

Lemma StronglySorted_filter {A} (R : relation A) (P : A → Prop)
    `{∀ x, Decision (P x)} (l : list A) :
  StronglySorted R l → StronglySorted R (filter P l).
Proof.
  induction 1 as [|x l Hl IH Hx]; [constructor|].
  rewrite filter_cons. case_decide; [|done].
  constructor; [done|]. rewrite Forall_forall in Hx. apply Forall_forall.
  intros y [_ Hy]%list_elem_of_filter. by apply Hx.
Qed.

(** The groups in the order in which the summary prints them. *)
Lemma sorted_by_type differences :
  merge_sort item_le (fold_left add_by_type differences [])
  = (λ k, (kind_str k, of_kind k differences))
      <$> filter (λ k, of_kind k differences ≠ []) kinds_by_name.
Proof.
  destruct (by_type_spec differences) as (Hnd & Hkeys & Hget).
  set (items := fold_left add_by_type differences []) in *.
  assert (∀ key v, (key, v) ∈ items
                   ↔ ∃ k, key = kind_str k ∧ of_kind k differences ≠ []
                          ∧ v = of_kind k differences) as Hitems.
  { intros key v. split.
    - intros Hin.
      destruct (Hkeys key) as [k ->].
      { apply list_elem_of_fmap. by exists (key, v). }
      apply (dict_get_NoDup _ _ _ Hnd) in Hin. rewrite Hget in Hin.
      case_decide; [done|]. injection Hin as <-. by exists k.
    - intros (k & -> & Hne & ->). apply dict_get_elem_of.
      rewrite Hget. by rewrite decide_False. }
  apply (StronglySorted_unique_strong item_le).
  - intros [k1 v1] [k2 v2] H1 H2 Hle1 Hle2.
    rewrite merge_sort_Permutation in H1.
    apply list_elem_of_fmap in H2 as (k & [= -> ->] & [Hne _]%list_elem_of_filter).
    assert (k1 = kind_str k) as -> by by apply (anti_symm String.le).
    apply Hitems in H1 as (k' & ->%kind_str_inj & _ & ->). done.
  - apply (StronglySorted_merge_sort _).
  - apply (fmap_StronglySorted _ (λ k k', String.le (kind_str k) (kind_str k'))); [|done].
    apply StronglySorted_filter. unfold kinds_by_name.
    repeat (constructor; [|repeat constructor; by vm_compute]). constructor.
  - rewrite merge_sort_Permutation. apply NoDup_Permutation.
    + eapply NoDup_fmap_1. exact Hnd.
    + apply NoDup_fmap_2_strong.
      * intros k k' _ _ [= ?%kind_str_inj _]. done.
      * apply NoDup_filter.
        refine (bool_decide_unpack _ _). vm_compute. exact I.
    + intros [key v]. rewrite Hitems, list_elem_of_fmap. split.
      * intros (k & -> & Hne & ->). exists k. split; [done|].
        apply list_elem_of_filter. split; [done|].
        unfold kinds_by_name. destruct k; set_solver.
      * intros (k & [= -> ->] & [Hne _]%list_elem_of_filter). by exists k.
Qed.

(** X14. The console summary has the header with the total count and a rule,
    then one group for each kind that occurs, in the order of the names of
    the kinds, then the footer with the path of the report and a rule.  The
    group of a kind gives the number of entries of that kind, a line for each
    of the first five of them in report order, and, when there are more than
    five, a line with the number of the others. *)
Theorem print_diff_summary_groups differences csv_path :
  _print_diff_summary differences csv_path
  = [newline +:+ "Schema Differences Detected (" +:+ pretty (length differences)
       +:+ " total)";
     repeat_string "=" 80]
    ++ (filter (λ k, of_kind k differences ≠ []) kinds_by_name
        ≫= λ k,
           [newline +:+ kind_str k +:+ ": "
              +:+ pretty (length (of_kind k differences)) +:+ " occurrence(s)"]
           ++ (sample_line <$> take 5 (of_kind k differences))
           ++ (if decide (5 < length (of_kind k differences))
               then ["  ... and " +:+ pretty (length (of_kind k differences) - 5)
                       +:+ " more"]
               else []))
    ++ [newline +:+ "Full Differences report saved to: " +:+ csv_path;
        repeat_string "=" 80].
Proof.
  unfold _print_diff_summary. cbv zeta.
  rewrite sorted_by_type, list_fmap_bind. done.
Qed.



(** ** The report file *)




(** ** The comparison in the other direction *)

Lemma collect_mirror {A B C} (f g : A → result (list B)) (h k : B → C) xs r :
  collect f xs = Ok r →
  (∀ x rx, x ∈ xs → f x = Ok rx → ∃ rx', g x = Ok rx' ∧ h <$> rx' ≡ₚ k <$> rx) →
  ∃ r', collect g xs = Ok r' ∧ h <$> r' ≡ₚ k <$> r.
Proof.
  revert r. induction xs as [|x xs IH]; intros r.
  - rewrite collect_nil. intros [= <-] _. by exists [].
  - rewrite !collect_cons.
    destruct (f x) as [rx|] eqn:Hx; simpl; [|done].
    destruct (collect f xs) as [rs|]; simpl; [|done].
    intros [= <-] Hfg.
    destruct (Hfg x rx) as (rx' & -> & Hp); [left|done|].
    destruct (IH rs eq_refl) as (rs' & -> & Hps).
    { intros y ry Hy. apply Hfg. by right. }
    exists (rx' ++ rs'). split; [done|]. by rewrite !fmap_app, Hp, Hps.
Qed.

Lemma missing_column_item_mirror table label1 label2 d name r :
  extra_column_item table label1 label2 d name = Ok r →
  missing_column_item table label2 label1 d name = Ok (mirror_entry <$> r).
Proof.
  intros (c & ty & nu & Hg & Hty & Hnu & ->)%extra_column_item_inv.
  unfold missing_column_item, dict_getitem. rewrite Hg; simpl. by rewrite Hty, Hnu.
Qed.

Lemma extra_column_item_mirror table label1 label2 d name r :
  missing_column_item table label1 label2 d name = Ok r →
  extra_column_item table label2 label1 d name = Ok (mirror_entry <$> r).
Proof.
  intros (c & ty & nu & Hg & Hty & Hnu & ->)%missing_column_item_inv.
  unfold extra_column_item, dict_getitem. rewrite Hg; simpl. by rewrite Hty, Hnu.
Qed.

Lemma mismatch_item_mirror table label1 label2 d1 d2 name r :
  mismatch_item table label1 label2 d1 d2 name = Ok r →
  ∃ r', mismatch_item table label2 label1 d2 d1 name = Ok r'
        ∧ without_mismatch_detail <$> (mirror_entry <$> r')
          = without_mismatch_detail <$> r.
Proof.
  intros (c1 & c2 & ty1 & ty2 & nu1 & nu2 & Hg1 & Hg2 & Hty1 & Hty2 & Hnu1 & Hnu2 & ->)
    %mismatch_item_inv.
  unfold mismatch_item, dict_getitem. rewrite Hg1, Hg2; simpl.
  rewrite Hty1, Hty2, Hnu1, Hnu2; simpl.
  destruct (decide (ty1 = ty2 ∧ nu1 = nu2)) as [[-> ->]|Hne].
  - rewrite !bool_decide_false by (by intros ?). simpl. by exists [].
  - assert (bool_decide (ty2 ≠ ty1) || bool_decide (nu2 ≠ nu1) = true) as ->.
    { apply orb_true_iff. rewrite !bool_decide_eq_true.
      destruct (decide (ty1 = ty2)) as [->|]; [|left; congruence].
      destruct (decide (nu1 = nu2)) as [->|]; [|right; congruence].
      by destruct Hne. }
    eexists. split; [done|]. reflexivity.
Qed.

Lemma mirror_entry_involutive x : mirror_entry (mirror_entry x) = x.
Proof. by destruct x as [[] ? ? ? ? ?]. Qed.

Lemma mirror_entry_fmap_involutive (r : list Difference) :
  mirror_entry <$> (mirror_entry <$> r) = r.
Proof.
  induction r as [|x r IH]; [done|].
  rewrite !fmap_cons, IH. by rewrite mirror_entry_involutive.
Qed.

Lemma _compare_columns_mirror table columns1 columns2 label1 label2 r :
  _compare_columns table columns1 columns2 label1 label2 = Ok r →
  ∃ r', _compare_columns table columns2 columns1 label2 label1 = Ok r'
        ∧ without_mismatch_detail <$> (mirror_entry <$> r')
          ≡ₚ without_mismatch_detail <$> r.
Proof.
  intros Hr. apply _compare_columns_inv in Hr
    as (d1 & d2 & a & b & c & Hd1 & Hd2 & Ha & Hb & Hc & ->).
  rewrite _compare_columns_collect, Hd1, Hd2. simpl.
  destruct (collect_mirror _ (missing_column_item table label2 label1 d2)
              mirror_entry id _ _ Hb) as (a' & -> & Ha').
  { intros x rx _ Hx. exists (mirror_entry <$> rx).
    split; [by apply missing_column_item_mirror|].
    by rewrite mirror_entry_fmap_involutive, list_fmap_id. }
  destruct (collect_mirror _ (extra_column_item table label2 label1 d1)
              mirror_entry id _ _ Ha) as (b' & -> & Hb').
  { intros x rx _ Hx. exists (mirror_entry <$> rx).
    split; [by apply extra_column_item_mirror|].
    by rewrite mirror_entry_fmap_involutive, list_fmap_id. }
  assert (names d2 ∩ names d1 = names d1 ∩ names d2) as -> by set_solver.
  destruct (collect_mirror _ (mismatch_item table label2 label1 d2 d1)
              (without_mismatch_detail ∘ mirror_entry) without_mismatch_detail _ _ Hc)
    as (c' & -> & Hc').
  { intros x rx _ Hx. apply mismatch_item_mirror in Hx as (rx' & -> & Heq).
    exists rx'. split; [done|]. by rewrite list_fmap_compose, Heq. }
  simpl. eexists. split; [done|].
  rewrite list_fmap_id in Ha', Hb'.
  rewrite !fmap_app, Ha', Hb'.
  rewrite <- list_fmap_compose, Hc'.
  rewrite (assoc_L (++)), (assoc_L (++)).
  apply Permutation_app; [apply Permutation_app_comm|done].
Qed.

(** X17. Comparing in the other direction tells the same, mirrored: it
    returns when the first direction does, with as many entries, and these
    are, up to their order, the entries of the first direction with
    [MISSING] and [EXTRA] exchanged and the labels exchanged; tables and
    columns of one side only keep their detail text, mismatches stay
    mismatches of the same table and column. *)
Theorem compare_tables_mirror label1 metadata1 label2 metadata2 diffs :
  _compare_tables label1 metadata1 label2 metadata2 = Ok diffs →
  ∃ diffs',
    _compare_tables label2 metadata2 label1 metadata1 = Ok diffs'
    ∧ length diffs' = length diffs
    ∧ without_mismatch_detail <$> (mirror_entry <$> diffs')
      ≡ₚ without_mismatch_detail <$> diffs.
Proof.
  intros Hr. destruct (_compare_tables_inv _ _ _ _ _ Hr) as (c & Hc & ->).
  rewrite _compare_tables_collect.
  assert (_get_all_tables metadata2 ∩ _get_all_tables metadata1
          = _get_all_tables metadata1 ∩ _get_all_tables metadata2) as -> by set_solver.
  destruct (collect_mirror _ (common_table_item label2 metadata2 label1 metadata1)
              (without_mismatch_detail ∘ mirror_entry) without_mismatch_detail _ _ Hc)
    as (c' & -> & Hc').
  { intros table rt _. unfold common_table_item.
    destruct (dict_getitem metadata1 table) as [c1|]; simpl; [|done].
    destruct (dict_getitem metadata2 table) as [c2|]; simpl; [|done].
    intros Hrt. apply _compare_columns_mirror in Hrt as (rt' & -> & Hp).
    exists rt'. split; [done|]. by rewrite list_fmap_compose. }
  simpl. eexists. split; [done|].
  assert (without_mismatch_detail
            <$> (mirror_entry
                   <$> (missing_table label2 label1
                          <$> sorted (_get_all_tables metadata2 ∖ _get_all_tables metadata1))
                       ++ (extra_table label2 label1
                             <$> sorted (_get_all_tables metadata1 ∖ _get_all_tables metadata2))
                       ++ c')
          ≡ₚ without_mismatch_detail
               <$> (missing_table label1 label2
                      <$> sorted (_get_all_tables metadata1 ∖ _get_all_tables metadata2))
                   ++ (extra_table label1 label2
                         <$> sorted (_get_all_tables metadata2 ∖ _get_all_tables metadata1))
                   ++ c) as Hperm.
  { rewrite !fmap_app, <- !list_fmap_compose.
    rewrite Hc', (assoc_L (++)), (assoc_L (++)).
    apply Permutation_app; [|done].
    etrans; [apply Permutation_app_comm|].
    apply Permutation_app; apply reflexive_eq; by apply list_fmap_ext. }
  split; [|done].
  apply Permutation_length in Hperm. by rewrite !length_fmap in Hperm.
Qed.

Lemma compare_tables_mirror_witness :
  ∃ diffs diffs',
    _compare_tables "db1" shop_v1 "db2" shop_v2 = Ok diffs
    ∧ _compare_tables "db2" shop_v2 "db1" shop_v1 = Ok diffs'
    ∧ length diffs' = 5
    ∧ without_mismatch_detail <$> (mirror_entry <$> diffs')
      ≡ₚ without_mismatch_detail <$> diffs.
Proof.
  eexists.
  edestruct (compare_tables_mirror "db1" shop_v1 "db2" shop_v2) as (diffs' & Hr & Hlen & Hp).
  - vm_compute. reflexivity.
  - exists diffs'. split; [reflexivity|]. split; [exact Hr|].
    split; [exact Hlen|exact Hp].
Defined.
